(** * python4geosciences: the gridding cell and the hurricane-track cell

    The repository is a set of teaching notebooks.  Two cells contain logic
    of their own:

    - the cell "Creating NetCDF files" of the NetCDF notebook, which draws
      scattered points, builds a progressive wave on them, knocks out some
      values and interpolates every time step onto a regular grid;
    - cell 20 of [materials/maps.ipynb], which reads hurricane tracks out
      of a KML document, one decade at a time, under a bare [except].

    A third place, the search for the index of a date in the time axis
    ([np.where(time==date)[0][0]], NetCDF notebook), is a pure function and
    is embedded as one.

    Both cells are embedded below as programs of a small state-and-exception
    monad that also counts loop iterations.  Library routines (NumPy's
    random generator and [sin], matplotlib's triangulation, [np.fromstring])
    are parameters of the development; nothing is assumed about them except
    the contracts stated as hypotheses where a result needs them. *)

From Stdlib Require Import PrimFloat Uint63 ZArith Ascii.
From stdpp Require Import gmap strings list.

(** ** Exceptions and the cell monad *)

Inductive exn := AttributeError | IndexError | ValueError | NameError | TypeError.

Inductive outcome (A : Type) :=
| Ok (a : A)
| Raise (e : exn).
Arguments Ok {A} a.
Arguments Raise {A} e.

(** What running a piece of a cell leaves behind: how it ended, the state
    it left (mutations made before an exception stay), and how many loop
    bodies were entered. *)
Record run (St A : Type) := Run { result : outcome A; final : St; iters : nat }.
Arguments Run {St A} result final iters.
Arguments result {St A} r.
Arguments final {St A} r.
Arguments iters {St A} r.

Definition M (St A : Type) : Type := St -> run St A.

Definition ret {St A} (a : A) : M St A := fun s => Run (Ok a) s 0.

Definition raise {St A} (e : exn) : M St A := fun s => Run (Raise e) s 0.

Definition bind {St A B} (m : M St A) (k : A -> M St B) : M St B :=
  fun s =>
    let r := m s in
    match result r with
    | Ok a => let r' := k a (final r) in
              Run (result r') (final r') (iters r + iters r')
    | Raise e => Run (Raise e) (final r) (iters r)
    end.

Declare Scope cell_scope.
Delimit Scope cell_scope with cell.
Notation "'let*' x ':=' m 'in' k" := (bind m (fun x => k))
  (at level 10, x name, m at level 100, k at level 200) : cell_scope.
Notation "m1 ';;' m2" := (bind m1 (fun _ => m2))
  (at level 100, m2 at level 200, right associativity) : cell_scope.
Open Scope cell_scope.

(** A partial library operation: [None] is the exception [e]. *)
Definition lift {St A} (e : exn) (o : option A) : M St A :=
  match o with
  | Some a => ret a
  | None => raise e
  end.

Definition get {St} : M St St := fun s => Run (Ok s) s 0.

Definition modify {St} (f : St -> St) : M St unit := fun s => Run (Ok tt) (f s) 0.

(** Entering a loop body. *)
Definition tick {St} : M St unit := fun s => Run (Ok tt) s 1.

(** [for x in xs: body] *)
Fixpoint for_each {St A} (xs : list A) (body : A -> M St unit) : M St unit :=
  match xs with
  | [] => ret tt
  | x :: xs' => tick ;; body x ;; for_each xs' body
  end.

(** [try: m  except: handler] with a bare [except], which catches
    everything. *)
Definition try_except {St} (m : M St unit) (handler : M St unit) : M St unit :=
  fun s =>
    let r := m s in
    match result r with
    | Ok _ => r
    | Raise _ => let r' := handler (final r) in
                 Run (result r') (final r') (iters r + iters r')
    end.

(** ** Running binds *)

Lemma run_eta {St A} (r : run St A) : Run (result r) (final r) (iters r) = r.
Proof. by destruct r. Qed.

Lemma bind_step {St A B} (m : M St A) (k : A -> M St B) s a s' n :
  m s = Run (Ok a) s' n ->
  bind m k s = Run (result (k a s')) (final (k a s')) (n + iters (k a s')).
Proof. intros Hm. unfold bind. by rewrite Hm. Qed.

Lemma bind_pure {St A B} (m : M St A) (k : A -> M St B) s a s' :
  m s = Run (Ok a) s' 0 -> bind m k s = k a s'.
Proof. intros Hm. rewrite (bind_step _ _ _ _ _ _ Hm). apply run_eta. Qed.

Lemma bind_raise {St A B} (m : M St A) (k : A -> M St B) s e s' n :
  m s = Run (Raise e) s' n -> bind m k s = Run (Raise e) s' n.
Proof. intros Hm. unfold bind. by rewrite Hm. Qed.

Lemma bind_lift_Some {St A B} e (o : option A) (k : A -> M St B) s a :
  o = Some a -> bind (lift e o) k s = k a s.
Proof. intros ->. by apply bind_pure. Qed.

Lemma for_each_cons {St A} (x : A) xs (body : A -> M St unit) s s' n :
  body x s = Run (Ok tt) s' n ->
  for_each (x :: xs) body s =
  Run (result (for_each xs body s')) (final (for_each xs body s'))
      (S (n + iters (for_each xs body s'))).
Proof.
  intros Hb. simpl. rewrite (bind_step tick _ s tt s 1) by done.
  by rewrite (bind_step _ _ _ _ _ _ Hb).
Qed.

Lemma bind_assoc {St A B C} (m : M St A) (f : A -> M St B) (g : B -> M St C) s :
  bind (bind m f) g s = bind m (fun a => bind (f a) g) s.
Proof.
  unfold bind. destruct (m s) as [[a|e] s1 n1]; cbn [result final iters]; [|done].
  destruct (f a s1) as [[b|e] s2 n2]; cbn [result final iters]; [|done].
  f_equal. lia.
Qed.

Lemma bind_ext {St A B} (m m' : M St A) (k k' : A -> M St B) s :
  m s = m' s -> (forall a s', k a s' = k' a s') -> bind m k s = bind m' k' s.
Proof.
  intros Hm Hk. unfold bind. rewrite Hm.
  destruct (result (m' s)); [|done]. by rewrite Hk.
Qed.

Lemma for_each_app {St A} (xs ys : list A) (body : A -> M St unit) s :
  for_each (xs ++ ys) body s = bind (for_each xs body) (fun _ => for_each ys body) s.
Proof.
  revert s. induction xs as [|x xs IH]; intros s.
  - cbn [app for_each]. unfold bind, ret. cbn [result final iters].
    by destruct (for_each ys body s).
  - cbn [app for_each]. rewrite bind_assoc. apply bind_ext; [done|]. intros _ s1.
    rewrite bind_assoc. apply bind_ext; [done|]. intros _ s2. apply IH.
Qed.

(** A loop over [range(len(xs))] whose body only uses [xs[i]] is the loop
    over the elements. *)
Lemma for_each_seq_lookup {St A} (xs : list A) (body : nat -> M St unit)
    (body' : A -> M St unit) : forall a,
  (forall i x, xs !! i = Some x -> forall s, body (a + i) s = body' x s) ->
  forall s, for_each (seq a (length xs)) body s = for_each xs body' s.
Proof.
  induction xs as [|x xs IH]; intros a Hb s; [done|].
  cbn [length seq for_each]. apply bind_ext; [done|]. intros _ s1.
  apply bind_ext.
  - rewrite <- (Hb 0 x) by done. by rewrite Nat.add_0_r.
  - intros _ s2. apply IH. intros i y Hi s3.
    rewrite <- (Hb (S i) y) by done. f_equal. lia.
Qed.

Lemma bind_lift_None {St A B} e (k : A -> M St B) s :
  bind (lift e None) k s = Run (Raise e) s 0.
Proof. done. Qed.

Lemma bind_modify {St B} (f : St -> St) (k : unit -> M St B) s :
  bind (modify f) k s = k tt (f s).
Proof. by apply bind_pure. Qed.

Lemma bind_get {St B} (k : St -> M St B) s : bind get k s = k s s.
Proof. by apply bind_pure. Qed.

Lemma for_each_cons_raise {St A} (x : A) xs (body : A -> M St unit) s e s' n :
  body x s = Run (Raise e) s' n ->
  for_each (x :: xs) body s = Run (Raise e) s' (S n).
Proof.
  intros Hb. simpl. rewrite (bind_step tick _ s tt s 1) by done.
  by rewrite (bind_raise _ _ _ _ _ _ Hb).
Qed.

(** [range(n)] and [np.arange(n)] *)
Definition range (n : nat) : list nat := seq 0 n.
Definition arange (n : nat) : list nat := seq 0 n.

(** ** NumPy arrays of the gridding cell *)

(** A two-dimensional float array: its shape and its C-ordered buffer. *)
Record ndarray2 := NdArray2 { shape : nat * nat; flat : list float }.

(** [a.size] *)
Definition size (a : ndarray2) : nat := (shape a).1 * (shape a).2.

Definition well_shaped (a : ndarray2) : Prop := length (flat a) = size a.

(** [a[n]] for a 2-D array: row [n]; out of range is an [IndexError]. *)
Definition getrow (a : ndarray2) (n : nat) : option (list float) :=
  if decide (n < (shape a).1)
  then Some (take (shape a).2 (drop (n * (shape a).2) (flat a)))
  else None.

(** [a.flat[ks] = v]; an index past the end is an [IndexError]. *)
Definition flat_assign (a : ndarray2) (ks : list nat) (v : float) : option ndarray2 :=
  if decide (Forall (fun k => k < size a) ks)
  then Some {| shape := shape a;
               flat := foldl (fun buf k => <[k:=v]> buf) (flat a) ks |}
  else None.

(** [xs[mask]] with a boolean mask: the entries where the mask is set; the
    mask must be as long as the array. *)
Fixpoint compress {A} (mask : list bool) (xs : list A) : list A :=
  match mask, xs with
  | b :: mask', x :: xs' => if b then x :: compress mask' xs' else compress mask' xs'
  | _, _ => []
  end.

Definition mask_select {A} (mask : list bool) (xs : list A) : option (list A) :=
  if decide (length mask = length xs) then Some (compress mask xs) else None.

(** [~np.isnan(row)] *)
Definition not_isnan (row : list float) : list bool :=
  (fun v => negb (PrimFloat.is_nan v)) <$> row.

(** [a[n] = v] on the first axis. *)
Definition setitem {A} (a : list A) (n : nat) (v : A) : option (list A) :=
  if decide (n < length a) then Some (<[n:=v]> a) else None.

(** Integers entering float arithmetic ([time/3.0], the grid indices). *)
Definition float_of_nat (n : nat) : float :=
  PrimFloat.of_uint63 (Uint63.of_Z (Z.of_nat n)).

(** [xs + ys] on 1-D arrays of one shape (both are [rand(Ndatapoints)]). *)
Definition np_add (xs ys : list float) : option (list float) :=
  if decide (length xs = length ys)
  then Some (zip_with PrimFloat.add xs ys)
  else None.

(** [np.mgrid[0:1:nyj, 0:1:nxj]]: with an imaginary step the slice is
    [ny] (resp. [nx]) points from 0 to 1 inclusive, index times step plus
    start; the two results have shape [(ny, nx)]. *)
Definition mgrid_step (n : nat) : float := (1 / float_of_nat (n - 1))%float.

Definition mgrid (ny nx : nat) : ndarray2 * ndarray2 :=
  ({| shape := (ny, nx);
      flat := i ← seq 0 ny; (fun _ => (float_of_nat i * mgrid_step ny + 0)%float) <$> seq 0 nx |},
   {| shape := (ny, nx);
      flat := _ ← seq 0 ny; (fun j => (float_of_nat j * mgrid_step nx + 0)%float) <$> seq 0 nx |}).

(** The constants of the cell. *)
Definition Ndatapoints : nat := 1000.
Definition Ntimes : nat := 20.
Definition Nbad : nat := 200.

(** The operations on small arrays. *)
Example getrow_example :
  getrow {| shape := (2, 3); flat := [1; 2; 3; 4; 5; 6]%float |} 1
  = Some [4; 5; 6]%float.
Proof. reflexivity. Qed.

Example getrow_out_of_range :
  getrow {| shape := (2, 3); flat := [1; 2; 3; 4; 5; 6]%float |} 2 = None.
Proof. reflexivity. Qed.

Example flat_assign_example :
  flat_assign {| shape := (2, 2); flat := [1; 2; 3; 4]%float |} [3; 0] nan
  = Some {| shape := (2, 2); flat := [nan; 2; 3; nan]%float |}.
Proof. reflexivity. Qed.

Example flat_assign_out_of_range :
  flat_assign {| shape := (2, 2); flat := [1; 2; 3; 4]%float |} [4] nan = None.
Proof. reflexivity. Qed.

Example mask_select_example :
  mask_select (not_isnan [1; nan; 3]%float) [10; 20; 30] = Some [10; 30].
Proof. reflexivity. Qed.

Example mask_select_wrong_length :
  mask_select [true; false] [10; 20; 30] = None.
Proof. reflexivity. Qed.

Example mgrid_example :
  mgrid 3 2 =
  ({| shape := (3, 2); flat := [0; 0; 0.5; 0.5; 1; 1]%float |},
   {| shape := (3, 2); flat := [0; 1; 0; 1; 0; 1]%float |}).
Proof. vm_compute. reflexivity. Qed.

(** ** Facts about the array operations *)

Section BroadcastRows.
Context {A B C : Type} (f : A -> B -> C).

(** The buffer of an outer broadcast: one row per [t], each row [f t]
    mapped over [s]. *)
Lemma length_bind_rows (ts : list A) (s : list B) :
  length (t ← ts; f t <$> s) = length ts * length s.
Proof.
  induction ts as [|t ts IH]; [done|].
  rewrite bind_cons, length_app, length_fmap, IH. simpl. lia.
Qed.

Lemma take_drop_bind_rows (ts : list A) (s : list B) i t :
  ts !! i = Some t ->
  take (length s) (drop (i * length s) (t ← ts; f t <$> s)) = f t <$> s.
Proof.
  revert i. induction ts as [|t0 ts IH]; intros i Hi; [done|].
  rewrite bind_cons. destruct i as [|i]; simpl in Hi.
  - injection Hi as ->. simpl. rewrite drop_0.
    rewrite take_app_le by (rewrite length_fmap; lia).
    apply take_ge. rewrite length_fmap. lia.
  - replace (S i * length s) with (length (f t0 <$> s) + i * length s)
      by (rewrite length_fmap; lia).
    rewrite drop_app_add. by apply IH.
Qed.

Lemma lookup_bind_rows (ts : list A) (s : list B) i j t :
  ts !! i = Some t -> j < length s ->
  (t ← ts; f t <$> s) !! (i * length s + j) = (f t <$> s) !! j.
Proof.
  intros Hi Hj. rewrite <- (take_drop_bind_rows ts s i t Hi).
  rewrite lookup_take_lt by done. by rewrite lookup_drop.
Qed.

End BroadcastRows.

(** Writing one value at several positions of a buffer. *)
Lemma length_foldl_insert {A} (v : A) ks buf :
  length (foldl (fun b k => <[k:=v]> b) buf ks) = length buf.
Proof.
  revert buf. induction ks as [|k ks IH]; intros buf; [done|].
  simpl. rewrite IH. apply length_insert.
Qed.

Lemma lookup_foldl_insert {A} (v : A) ks buf j :
  j < length buf ->
  foldl (fun b k => <[k:=v]> b) buf ks !! j =
  if decide (j ∈ ks) then Some v else buf !! j.
Proof.
  revert buf. induction ks as [|k ks IH]; intros buf Hj; simpl.
  - destruct (decide (j ∈ [])) as [Hin|]; [by apply elem_of_nil in Hin|done].
  - rewrite IH by (by rewrite length_insert).
    destruct (decide (j ∈ ks)) as [Hin|Hnin].
    + rewrite decide_True by (by right). done.
    + destruct (decide (k = j)) as [->|Hne].
      * rewrite decide_True by (by left). by apply list_lookup_insert_eq.
      * rewrite decide_False by (intros [?|?]%elem_of_cons; done).
        by apply list_lookup_insert_ne.
Qed.

(** Rows of a well-shaped array. *)
Lemma getrow_length a n row :
  well_shaped a -> getrow a n = Some row -> length row = (shape a).2.
Proof.
  unfold well_shaped, size, getrow. intros Hw Hr.
  case_decide; [|done]. injection Hr as <-.
  rewrite length_take, length_drop, Hw. nia.
Qed.

Lemma getrow_lookup a n row j :
  getrow a n = Some row -> j < (shape a).2 ->
  row !! j = flat a !! (n * (shape a).2 + j).
Proof.
  unfold getrow. intros Hr Hj. case_decide; [|done]. injection Hr as <-.
  rewrite lookup_take_lt by done. by rewrite lookup_drop.
Qed.

(** Boolean-mask selection. *)
Lemma compress_fmap {A B} (g : A -> B) mask (xs : list A) :
  compress mask (g <$> xs) = g <$> compress mask xs.
Proof.
  revert xs. induction mask as [|b mask IH]; intros [|x xs]; simpl; try done.
  destruct b; simpl; by rewrite IH.
Qed.

Lemma compress_not_isnan_filter {A} (row : list float) (xs : list A) :
  length xs = length row ->
  compress (not_isnan row) xs =
  (filter (fun p => PrimFloat.is_nan p.2 = false) (zip xs row)).*1.
Proof.
  revert xs. induction row as [|v row IH]; intros [|x xs] Hl; simpl in *; try done.
  rewrite filter_cons. simpl. destruct (PrimFloat.is_nan v); simpl.
  - apply IH. lia.
  - f_equal. apply IH. lia.
Qed.

Lemma compress_not_isnan_row {A} (row : list float) (xs : list A) :
  length xs = length row ->
  compress (not_isnan row) row =
  (filter (fun p => PrimFloat.is_nan p.2 = false) (zip xs row)).*2.
Proof.
  revert xs. induction row as [|v row IH]; intros [|x xs] Hl; simpl in *; try done.
  rewrite filter_cons. simpl. destruct (PrimFloat.is_nan v); simpl.
  - apply IH. lia.
  - f_equal. apply IH. lia.
Qed.

Lemma length_compress_not_isnan {A} (row : list float) (xs : list A) :
  length xs = length row ->
  length (compress (not_isnan row) xs) +
  length (filter (fun v => PrimFloat.is_nan v = true) row) = length row.
Proof.
  revert xs. induction row as [|v row IH]; intros [|x xs] Hl; simpl in *; try done.
  rewrite filter_cons. specialize (IH xs). destruct (PrimFloat.is_nan v); simpl; lia.
Qed.

Lemma elem_of_compress {A} mask (xs : list A) x :
  x ∈ compress mask xs -> x ∈ xs.
Proof.
  revert xs. induction mask as [|b mask IH]; intros [|y xs]; simpl;
    try (by intros ?%elem_of_nil).
  destruct b.
  - intros [->|Hx]%elem_of_cons; [by left|]. right. by apply IH.
  - intros Hx. right. by apply IH.
Qed.

(** The positions of the NaNs of a row that starts at flat position
    [off]. *)
Fixpoint nan_positions (off : nat) (row : list float) : list nat :=
  match row with
  | [] => []
  | v :: row' => if PrimFloat.is_nan v then off :: nan_positions (S off) row'
                 else nan_positions (S off) row'
  end.

Lemma length_nan_positions off row :
  length (nan_positions off row) =
  length (filter (fun v => PrimFloat.is_nan v = true) row).
Proof.
  revert off. induction row as [|v row IH]; intros off; simpl; [done|].
  rewrite filter_cons. destruct (PrimFloat.is_nan v); simpl; by rewrite IH.
Qed.

Lemma elem_of_nan_positions off row k :
  k ∈ nan_positions off row ->
  exists i v, k = off + i /\ row !! i = Some v /\ PrimFloat.is_nan v = true.
Proof.
  revert off. induction row as [|v row IH]; intros off Hk; simpl in Hk.
  - by apply elem_of_nil in Hk.
  - destruct (PrimFloat.is_nan v) eqn:Hv.
    + apply elem_of_cons in Hk as [->|Hk].
      * exists 0, v. split; [lia|done].
      * destruct (IH _ Hk) as (i & w & -> & Hi & Hw).
        exists (S i), w. split; [lia|done].
    + destruct (IH _ Hk) as (i & w & -> & Hi & Hw).
      exists (S i), w. split; [lia|done].
Qed.

Lemma NoDup_nan_positions off row : NoDup (nan_positions off row).
Proof.
  revert off. induction row as [|v row IH]; intros off; simpl; [constructor|].
  destruct (PrimFloat.is_nan v); [|apply IH].
  constructor; [|apply IH]. intros Hin.
  apply elem_of_nan_positions in Hin as (i & _ & Hi & _). lia.
Qed.

(** A row all of whose NaNs sit at positions of [bad] has at most
    [length bad] of them. *)
Lemma nan_count_le off row bad :
  (forall i v, row !! i = Some v -> PrimFloat.is_nan v = true -> off + i ∈ bad) ->
  length (filter (fun v => PrimFloat.is_nan v = true) row) <= length bad.
Proof.
  intros Hbad. rewrite <- (length_nan_positions off).
  apply submseteq_length, NoDup_submseteq; [apply NoDup_nan_positions|].
  intros k (i & v & -> & Hi & Hv)%elem_of_nan_positions. by eapply Hbad.
Qed.

Lemma nan_positions_elem off row i v :
  row !! i = Some v -> PrimFloat.is_nan v = true -> off + i ∈ nan_positions off row.
Proof.
  revert off i. induction row as [|w row IH]; intros off i Hi Hv; [done|].
  destruct i as [|i]; simpl in *.
  - injection Hi as ->. rewrite Hv, Nat.add_0_r. by left.
  - replace (off + S i) with (S off + i) by lia.
    destruct (PrimFloat.is_nan w); [right|]; by apply IH.
Qed.

(** A row whose NaNs sit exactly at the positions of a duplicate-free
    [bad] has [length bad] of them. *)
Lemma nan_count_exact off row bad :
  NoDup bad ->
  (forall k, k ∈ bad <->
     exists i v, k = off + i /\ row !! i = Some v /\ PrimFloat.is_nan v = true) ->
  length (filter (fun v => PrimFloat.is_nan v = true) row) = length bad.
Proof.
  intros Hnd Hbad. rewrite <- (length_nan_positions off).
  apply Permutation_length, NoDup_Permutation; [apply NoDup_nan_positions|done|].
  intros k. rewrite Hbad. split.
  - apply elem_of_nan_positions.
  - intros (i & v & -> & Hi & Hv). by eapply nan_positions_elem.
Qed.

Lemma length_filter_is_nan (row : list float) :
  length (filter (fun v => PrimFloat.is_nan v = true) row) +
  length (filter (fun v => PrimFloat.is_nan v = false) row) = length row.
Proof.
  induction row as [|v row IH]; [done|].
  rewrite !filter_cons. destruct (PrimFloat.is_nan v); simpl; lia.
Qed.

(** The two grids have the requested shape. *)
Lemma mgrid_shape ny nx :
  shape (mgrid ny nx).1 = (ny, nx) /\ shape (mgrid ny nx).2 = (ny, nx) /\
  well_shaped (mgrid ny nx).1 /\ well_shaped (mgrid ny nx).2.
Proof.
  unfold mgrid, well_shaped, size. cbn [fst snd shape flat].
  rewrite !length_bind_rows, !length_seq. done.
Qed.

(** ** The gridding cell (NetCDF notebook, "Creating NetCDF files") *)

Section Gridding.

(** The libraries the cell calls.  [rng] is the state of NumPy's global
    random generator, which [np.random.rand] and [np.random.shuffle] read
    and advance. *)
Variable rng : Type.
Variable rand : nat -> rng -> list float * rng.
Variable shuffle : list nat -> rng -> list nat * rng.
Variable np_sin : float -> float.

(** matplotlib.tri: a triangulation of scattered points, a linear
    interpolant on it, and the masked array that calling the interpolant
    on a grid returns. *)
Variable triangulation interpolator marray : Type.
Variable Triangulation : list float -> list float -> triangulation.
Variable LinearTriInterpolator : triangulation -> list float -> interpolator.
Variable interp_call : interpolator -> ndarray2 -> ndarray2 -> marray.

(** What [np.ma.empty] finds in memory at each time slice. *)
Variable uninitialised : nat -> marray.

(** The contents of a file on disk. *)
Variable file : Type.

(** The objects the names of the notebook are bound to. *)
Inductive value :=
| VInt (n : nat)
| VModule (name : string)
| VFloats (a : list float)
| VInts (a : list nat)
| VBools (a : list bool)
| VArray2 (a : ndarray2)
| VMasked3 (a : list marray)
| VTri (t : triangulation)
| VInterp (f : interpolator).

(** The notebook as a cell sees it: the kernel's namespace, the random
    generator and the files on disk. *)
Record notebook := Notebook {
  env : gmap string value;
  random_state : rng;
  files : gmap string file
}.

(** [x = v] *)
Definition assign (x : string) (v : value) : M notebook unit :=
  modify (fun st => {| env := <[x:=v]> (env st);
                       random_state := random_state st;
                       files := files st |}).

(** [np.random.rand(n)] *)
Definition np_random_rand (n : nat) : M notebook (list float) :=
  fun st =>
    let d := rand n (random_state st) in
    Run (Ok d.1) {| env := env st; random_state := d.2; files := files st |} 0.

(** [np.random.shuffle(a)], returning the shuffled contents. *)
Definition np_random_shuffle (a : list nat) : M notebook (list nat) :=
  fun st =>
    let d := shuffle a (random_state st) in
    Run (Ok d.1) {| env := env st; random_state := d.2; files := files st |} 0.

(** Reading the masked array bound to a name. *)
Definition get_masked3 (x : string) : M notebook (list marray) :=
  fun st =>
    match env st !! x with
    | Some (VMasked3 a) => Run (Ok a) st 0
    | Some _ => Run (Raise TypeError) st 0
    | None => Run (Raise NameError) st 0
    end.

(** [np.ma.empty((n, 60, 50), 'd')], one slice per time step. *)
Definition ma_empty (n : nat) : list marray := uninitialised <$> seq 0 n.

(** [sin((x + y) * 5.0 + t / 3.0)] for one point sum [s = x + y] and one
    time [t]. *)
Definition wave_value (s : float) (t : nat) : float :=
  np_sin (s * 5.0 + float_of_nat t / 3.0)%float.

(** [np.sin((xdata+ydata)[np.newaxis, :]*5.0 + time[:, np.newaxis]/3.0)]:
    the two operands broadcast to shape [(len(time), len(xdata))]. *)
Definition wave (xdata ydata : list float) (time : list nat) : option ndarray2 :=
  match np_add xdata ydata with
  | Some s => Some {| shape := (length time, length s);
                      flat := t ← time; (fun v => wave_value v t) <$> s |}
  | None => None
  end.

(** The body of [for n in range(Ntimes)].  The loop rebinds neither
    [xdata], [ydata], [fdata] nor the grids, so the body takes the arrays
    they are bound to; [fgrid], which it updates, is read from the
    namespace. *)
Definition interp_body (xdata ydata : list float) (fdata xgrid ygrid : ndarray2)
    (n : nat) : M notebook unit :=
  assign "n" (VInt n) ;;
  let* row := lift IndexError (getrow fdata n) in
  let igood := not_isnan row in
  assign "igood" (VBools igood) ;;
  let* xs := lift IndexError (mask_select igood xdata) in
  let* ys := lift IndexError (mask_select igood ydata) in
  let t := Triangulation xs ys in
  assign "t" (VTri t) ;;
  let* fs := lift IndexError (mask_select igood row) in
  let interp := LinearTriInterpolator t fs in
  assign "interp" (VInterp interp) ;;
  let* fgrid := get_masked3 "fgrid" in
  let* fgrid' := lift IndexError (setitem fgrid n (interp_call interp xgrid ygrid)) in
  assign "fgrid" (VMasked3 fgrid').

(** The cell.  The lines after the loop are comments in the source (the
    NetCDF writer) and so are no part of it. *)
Definition gridding_cell : M notebook unit :=
  assign "tri" (VModule "matplotlib.tri") ;;
  assign "Ndatapoints" (VInt Ndatapoints) ;;
  assign "Ntimes" (VInt Ntimes) ;;
  assign "Nbad" (VInt Nbad) ;;
  let* xdata := np_random_rand Ndatapoints in
  assign "xdata" (VFloats xdata) ;;
  let* ydata := np_random_rand Ndatapoints in
  assign "ydata" (VFloats ydata) ;;
  let time := arange Ntimes in
  assign "time" (VInts time) ;;
  let* fdata0 := lift ValueError (wave xdata ydata time) in
  assign "fdata" (VArray2 fdata0) ;;
  assign "idx" (VInts (arange (size fdata0))) ;;
  let* idx := np_random_shuffle (arange (size fdata0)) in
  assign "idx" (VInts idx) ;;
  let* fdata := lift IndexError (flat_assign fdata0 (take Nbad idx) nan) in
  assign "fdata" (VArray2 fdata) ;;
  let grids := mgrid 60 50 in
  assign "ygrid" (VArray2 grids.1) ;;
  assign "xgrid" (VArray2 grids.2) ;;
  assign "fgrid" (VMasked3 (ma_empty Ntimes)) ;;
  for_each (range Ntimes) (interp_body xdata ydata fdata grids.2 grids.1).

(** *** What the cell can touch *)

(** The names the cell binds, in the order of their first assignment. *)
Definition bound_names : list string :=
  ["tri"; "Ndatapoints"; "Ntimes"; "Nbad"; "xdata"; "ydata"; "time"; "fdata";
   "idx"; "ygrid"; "xgrid"; "fgrid"; "n"; "igood"; "t"; "interp"].

(** The names the loop body binds. *)
Definition loop_names : list string := ["n"; "igood"; "t"; "interp"; "fgrid"].

(** A piece of a cell is confined to the names [X] when, however it ends,
    it leaves the files on disk as they were and rebinds no name outside
    [X]. *)
Definition confined {A} (X : list string) (m : M notebook A) : Prop :=
  forall st,
    files (final (m st)) = files st /\
    forall x, x ∉ X -> env (final (m st)) !! x = env st !! x.

Lemma confined_ret {A} X (a : A) : confined X (ret a).
Proof. by intros st. Qed.

Lemma confined_lift {A} X e (o : option A) : confined X (lift e o).
Proof. intros st. by destruct o. Qed.

Lemma confined_assign X x v : x ∈ X -> confined X (assign x v).
Proof.
  intros Hx st. split; [done|]. intros y Hy. simpl.
  apply lookup_insert_ne. by intros ->.
Qed.

Lemma confined_rand X n : confined X (np_random_rand n).
Proof. by intros st. Qed.

Lemma confined_shuffle X a : confined X (np_random_shuffle a).
Proof. by intros st. Qed.

Lemma confined_get_masked3 X x : confined X (get_masked3 x).
Proof. intros st. unfold get_masked3. by destruct (env st !! x) as [[]|]. Qed.

Lemma confined_tick X : confined X (tick (St := notebook)).
Proof. by intros st. Qed.

Lemma confined_bind {A B} X (m : M notebook A) (k : A -> M notebook B) :
  confined X m -> (forall a, confined X (k a)) -> confined X (bind m k).
Proof.
  intros Hm Hk st. unfold bind. destruct (Hm st) as [Hf He].
  destruct (result (m st)) as [a|e]; simpl; [|done].
  destruct (Hk a (final (m st))) as [Hf' He']. split.
  - by rewrite Hf'.
  - intros x Hx. by rewrite He', He.
Qed.

Lemma confined_for_each {A} X (xs : list A) (body : A -> M notebook unit) :
  (forall x, confined X (body x)) -> confined X (for_each xs body).
Proof.
  intros Hb. induction xs as [|x xs IH]; simpl.
  - apply confined_ret.
  - apply confined_bind; [apply confined_tick|]. intros _.
    apply confined_bind; [apply Hb|]. by intros _.
Qed.

Ltac in_names := repeat first [ apply list_elem_of_here | apply list_elem_of_further ].

Ltac confine :=
  cbv zeta;
  repeat lazymatch goal with
  | |- confined _ (bind _ _) => apply confined_bind; [|intros ?]
  | |- confined _ (assign _ _) => apply confined_assign; in_names
  | |- confined _ (lift _ _) => apply confined_lift
  | |- confined _ (np_random_rand _) => apply confined_rand
  | |- confined _ (np_random_shuffle _) => apply confined_shuffle
  | |- confined _ (get_masked3 _) => apply confined_get_masked3
  | |- confined _ (ret _) => apply confined_ret
  end.

Lemma interp_body_confined xdata ydata fdata xgrid ygrid n :
  confined loop_names (interp_body xdata ydata fdata xgrid ygrid n).
Proof. unfold interp_body, loop_names. confine. Qed.

Lemma confined_weaken {A} X Y (m : M notebook A) :
  X ⊆ Y -> confined X m -> confined Y m.
Proof.
  intros HXY Hm st. destruct (Hm st) as [Hf He]. split; [done|].
  intros x Hx. apply He. intros Hin. by apply Hx, HXY.
Qed.

Lemma loop_names_bound : loop_names ⊆ bound_names.
Proof.
  intros x Hx. unfold loop_names in Hx. unfold bound_names.
  repeat (apply elem_of_cons in Hx as [->|Hx]; [in_names|]).
  by apply elem_of_nil in Hx.
Qed.

Lemma gridding_cell_confined : confined bound_names gridding_cell.
Proof.
  unfold gridding_cell, bound_names. confine.
  apply confined_for_each. intros n.
  apply (confined_weaken loop_names); [apply loop_names_bound|].
  apply interp_body_confined.
Qed.

(** C6 (amended). Running the cell, however it ends, leaves the files on
    disk exactly as they were (the NetCDF writer is a comment: nothing is
    created, opened or assigned in a dataset) and rebinds in the namespace
    only the sixteen names the cell assigns: [tri], [Ndatapoints],
    [Ntimes], [Nbad], [xdata], [ydata], [time], [fdata], [idx], [ygrid],
    [xgrid], [fgrid], [n], [igood], [t] and [interp]. *)
Theorem gridding_cell_effects (st : notebook) :
  files (final (gridding_cell st)) = files st /\
  forall x, x ∉ bound_names ->
    env (final (gridding_cell st)) !! x = env st !! x.
Proof. apply gridding_cell_confined. Qed.

(** *** Running the loop *)

(** The slice that iteration [n] stores in [fgrid[n]], when none of its
    steps raises. *)
Definition interp_slice (xdata ydata : list float) (fdata xgrid ygrid : ndarray2)
    (n : nat) : option marray :=
  row ← getrow fdata n;
  xs ← mask_select (not_isnan row) xdata;
  ys ← mask_select (not_isnan row) ydata;
  fs ← mask_select (not_isnan row) row;
  Some (interp_call (LinearTriInterpolator (Triangulation xs ys) fs) xgrid ygrid).

Lemma bind_assign {B} x v (k : unit -> M notebook B) st :
  bind (assign x v) k st =
  k tt {| env := <[x:=v]> (env st); random_state := random_state st; files := files st |}.
Proof. by apply bind_pure. Qed.

Lemma bind_rand {B} n (k : list float -> M notebook B) st :
  bind (np_random_rand n) k st =
  k (rand n (random_state st)).1
    {| env := env st; random_state := (rand n (random_state st)).2; files := files st |}.
Proof. by apply bind_pure. Qed.

Lemma bind_shuffle {B} a (k : list nat -> M notebook B) st :
  bind (np_random_shuffle a) k st =
  k (shuffle a (random_state st)).1
    {| env := env st; random_state := (shuffle a (random_state st)).2; files := files st |}.
Proof. by apply bind_pure. Qed.

Lemma bind_get_masked3 {B} x (k : list marray -> M notebook B) st a :
  env st !! x = Some (VMasked3 a) -> bind (get_masked3 x) k st = k a st.
Proof. intros Hx. apply bind_pure. unfold get_masked3. by rewrite Hx. Qed.

Lemma interp_body_run xdata ydata fdata xgrid ygrid n st g v :
  env st !! "fgrid" = Some (VMasked3 g) ->
  n < length g ->
  interp_slice xdata ydata fdata xgrid ygrid n = Some v ->
  exists st',
    interp_body xdata ydata fdata xgrid ygrid n st = Run (Ok tt) st' 0 /\
    env st' !! "fgrid" = Some (VMasked3 (<[n:=v]> g)) /\
    random_state st' = random_state st.
Proof.
  intros Hg Hn Hv. unfold interp_slice in Hv.
  destruct (getrow fdata n) as [row|] eqn:Hrow; [|done]. simpl in Hv.
  destruct (mask_select (not_isnan row) xdata) as [xs|] eqn:Hxs; [|done]. simpl in Hv.
  destruct (mask_select (not_isnan row) ydata) as [ys|] eqn:Hys; [|done]. simpl in Hv.
  destruct (mask_select (not_isnan row) row) as [fs|] eqn:Hfs; [|done]. simpl in Hv.
  injection Hv as <-.
  eexists. split; [|split].
  - unfold interp_body.
    rewrite bind_assign, (bind_lift_Some _ _ _ _ _ Hrow). cbv zeta.
    rewrite bind_assign, (bind_lift_Some _ _ _ _ _ Hxs), (bind_lift_Some _ _ _ _ _ Hys).
    rewrite bind_assign, (bind_lift_Some _ _ _ _ _ Hfs), bind_assign.
    rewrite (bind_get_masked3 _ _ _ g)
      by (cbn [env]; by rewrite !lookup_insert_ne by done).
    rewrite (bind_lift_Some _ _ _ _ (<[n:=_]> g))
      by (unfold setitem; by rewrite decide_True).
    reflexivity.
  - cbn [env]. apply lookup_insert_eq.
  - reflexivity.
Qed.

Lemma interp_loop_run xdata ydata fdata xgrid ygrid ns : forall st g,
  env st !! "fgrid" = Some (VMasked3 g) ->
  Forall (fun n => n < length g /\
                   is_Some (interp_slice xdata ydata fdata xgrid ygrid n)) ns ->
  result (for_each ns (interp_body xdata ydata fdata xgrid ygrid) st) = Ok tt /\
  iters (for_each ns (interp_body xdata ydata fdata xgrid ygrid) st) = length ns /\
  random_state (final (for_each ns (interp_body xdata ydata fdata xgrid ygrid) st))
    = random_state st /\
  exists g',
    env (final (for_each ns (interp_body xdata ydata fdata xgrid ygrid) st)) !! "fgrid"
      = Some (VMasked3 g') /\
    length g' = length g /\
    (forall n, n ∈ ns -> g' !! n = interp_slice xdata ydata fdata xgrid ygrid n) /\
    (forall n, n ∉ ns -> g' !! n = g !! n).
Proof.
  induction ns as [|n ns IH]; intros st g Hg Hns.
  - simpl. repeat split; try done. exists g. repeat split; try done.
    intros n Hn. by apply elem_of_nil in Hn.
  - apply Forall_cons in Hns as [[Hn [v Hv]] Hns].
    destruct (interp_body_run _ _ _ _ _ _ _ _ _ Hg Hn Hv) as (st' & Hrun & Hg' & Hr').
    assert (Hns' : Forall (fun m => m < length (<[n:=v]> g) /\
              is_Some (interp_slice xdata ydata fdata xgrid ygrid m)) ns)
      by (eapply Forall_impl; [exact Hns|];
          intros m [? ?]; split; [by rewrite length_insert|done]).
    destruct (IH st' _ Hg' Hns') as (Hres & Hit & Hrs & g' & Hfg & Hlen & Hin & Hout).
    rewrite (for_each_cons _ _ _ _ _ _ Hrun). cbn [result final iters].
    repeat split; [done|by rewrite Hit|by rewrite Hrs, Hr'|].
    exists g'. repeat split; [done|by rewrite Hlen, length_insert|..].
    + intros m Hm. destruct (decide (m ∈ ns)) as [Hmns|Hmns]; [by apply Hin|].
      apply elem_of_cons in Hm as [->|Hm]; [|done].
      rewrite (Hout _ Hmns), Hv. by apply list_lookup_insert_eq.
    + intros m Hm. apply not_elem_of_cons in Hm as [Hne Hm].
      rewrite (Hout _ Hm). by apply list_lookup_insert_ne.
Qed.

(** *** The wave and the injected gaps *)

Lemma wave_Some xdata ydata time :
  length xdata = length ydata ->
  wave xdata ydata time =
  Some {| shape := (length time, length xdata);
          flat := t ← time;
                  (fun v => wave_value v t) <$> zip_with PrimFloat.add xdata ydata |}.
Proof.
  intros Hl. unfold wave, np_add. rewrite decide_True by done.
  by rewrite length_zip_with_l_eq.
Qed.

Lemma wave_shape xdata ydata time a :
  wave xdata ydata time = Some a ->
  shape a = (length time, length xdata) /\ well_shaped a.
Proof.
  unfold wave, np_add. case_decide as Hl; [|done]. intros [= <-].
  unfold well_shaped, size. cbn [shape flat fst snd].
  rewrite length_bind_rows, !length_zip_with_l_eq by done. done.
Qed.

Lemma wave_lookup xdata ydata T a t i x y :
  wave xdata ydata (arange T) = Some a ->
  t < T -> xdata !! i = Some x -> ydata !! i = Some y ->
  flat a !! (t * length xdata + i) = Some (wave_value (x + y)%float t).
Proof.
  unfold wave, np_add. case_decide as Hl; [|done]. intros [= <-] Ht Hx Hy.
  cbn [flat]. pose proof (lookup_lt_Some _ _ _ Hx) as Hi.
  rewrite <- (length_zip_with_l_eq PrimFloat.add xdata ydata) by done.
  rewrite (lookup_bind_rows _ _ _ t i t).
  - rewrite list_lookup_fmap, lookup_zip_with, Hx, Hy. done.
  - unfold arange. by apply lookup_seq_lt.
  - by rewrite length_zip_with_l_eq.
Qed.

Lemma flat_assign_Some a ks v :
  Forall (fun k => k < size a) ks ->
  flat_assign a ks v =
  Some {| shape := shape a; flat := foldl (fun buf k => <[k:=v]> buf) (flat a) ks |}.
Proof. intros Hks. unfold flat_assign. by rewrite decide_True. Qed.

Lemma flat_assign_shape a ks v b :
  well_shaped a -> flat_assign a ks v = Some b ->
  shape b = shape a /\ well_shaped b.
Proof.
  unfold flat_assign. intros Hw. case_decide; [|done]. intros [= <-].
  split; [done|]. unfold well_shaped, size in *. cbn [shape flat].
  by rewrite length_foldl_insert.
Qed.

Lemma flat_assign_lookup a ks v b k :
  well_shaped a -> flat_assign a ks v = Some b -> k < size a ->
  flat b !! k = if decide (k ∈ ks) then Some v else flat a !! k.
Proof.
  unfold flat_assign. intros Hw. case_decide; [|done]. intros [= <-] Hk.
  cbn [flat]. apply lookup_foldl_insert. by rewrite Hw.
Qed.

(** The first entries of a shuffled [arange]. *)
Lemma shuffled_prefix idx N m :
  idx ≡ₚ arange N ->
  NoDup (take m idx) /\ Forall (fun k => k < N) (take m idx) /\
  length (take m idx) = m `min` N.
Proof.
  intros Hp. split; [|split].
  - apply (sublist_NoDup (take m idx) idx); [|apply sublist_take].
    rewrite Hp. apply NoDup_seq.
  - apply Forall_forall. intros k Hk.
    apply (subseteq_take m idx) in Hk. rewrite Hp in Hk.
    apply elem_of_seq in Hk. lia.
  - rewrite length_take, Hp. unfold arange. by rewrite length_seq.
Qed.

Lemma interp_slice_is_Some xdata ydata fdata xgrid ygrid n :
  well_shaped fdata -> shape fdata = (Ntimes, Ndatapoints) ->
  length xdata = Ndatapoints -> length ydata = Ndatapoints -> n < Ntimes ->
  is_Some (interp_slice xdata ydata fdata xgrid ygrid n).
Proof.
  intros Hw Hs Hx Hy Hn. unfold interp_slice.
  destruct (getrow fdata n) as [row|] eqn:Hrow.
  - pose proof (getrow_length _ _ _ Hw Hrow) as Hl. rewrite Hs in Hl. simpl in Hl.
    assert (Hm : length (not_isnan row) = Ndatapoints)
      by (unfold not_isnan; by rewrite length_fmap).
    cbn [mbind option_bind]. unfold mask_select.
    rewrite !decide_True by congruence. by eexists.
  - unfold getrow in Hrow. rewrite Hs in Hrow. by rewrite decide_True in Hrow.
Qed.

(** *** Running the cell *)

(** What the library promises of the random generator: [rand(n)] returns
    [n] numbers, and [shuffle] permutes its argument. *)
Hypothesis rand_length : forall n r, length (rand n r).1 = n.
Hypothesis shuffle_perm : forall a r, (shuffle a r).1 ≡ₚ a.

Ltac not_in_names :=
  let Hin := fresh in
  intros Hin;
  repeat (apply elem_of_cons in Hin as [Hin|Hin]; [discriminate Hin|]);
  by apply elem_of_nil in Hin.

Ltac step :=
  first [ rewrite bind_assign | rewrite bind_rand | rewrite bind_shuffle ];
  cbn [random_state env files]; cbv beta zeta.

Ltac find_binding :=
  cbn [env]; rewrite ?lookup_insert_ne by done; apply lookup_insert_eq.

Lemma gridding_cell_run st :
  exists xdata ydata idx fdata0 fdata fgrid,
    (exists r, xdata = (rand Ndatapoints r).1) /\
    (exists r, ydata = (rand Ndatapoints r).1) /\
    wave xdata ydata (arange Ntimes) = Some fdata0 /\
    idx ≡ₚ arange (Ntimes * Ndatapoints) /\
    flat_assign fdata0 (take Nbad idx) nan = Some fdata /\
    length fgrid = Ntimes /\
    (forall n, n < Ntimes ->
       fgrid !! n = interp_slice xdata ydata fdata (mgrid 60 50).2 (mgrid 60 50).1 n) /\
    result (gridding_cell st) = Ok tt /\
    iters (gridding_cell st) = Ntimes /\
    env (final (gridding_cell st)) !! "xdata" = Some (VFloats xdata) /\
    env (final (gridding_cell st)) !! "ydata" = Some (VFloats ydata) /\
    env (final (gridding_cell st)) !! "time" = Some (VInts (arange Ntimes)) /\
    env (final (gridding_cell st)) !! "idx" = Some (VInts idx) /\
    env (final (gridding_cell st)) !! "fdata" = Some (VArray2 fdata) /\
    env (final (gridding_cell st)) !! "ygrid" = Some (VArray2 (mgrid 60 50).1) /\
    env (final (gridding_cell st)) !! "xgrid" = Some (VArray2 (mgrid 60 50).2) /\
    env (final (gridding_cell st)) !! "fgrid" = Some (VMasked3 fgrid).
Proof.
  pose (r0 := random_state st).
  pose (xdata := (rand Ndatapoints r0).1). pose (r1 := (rand Ndatapoints r0).2).
  pose (ydata := (rand Ndatapoints r1).1). pose (r2 := (rand Ndatapoints r1).2).
  assert (Hx : length xdata = Ndatapoints) by apply rand_length.
  assert (Hy : length ydata = Ndatapoints) by apply rand_length.
  destruct (wave xdata ydata (arange Ntimes)) as [fdata0|] eqn:Hwave;
    [|by rewrite wave_Some in Hwave by congruence].
  destruct (wave_shape _ _ _ _ Hwave) as [Hs0 Hw0].
  unfold arange in Hs0 at 1. rewrite length_seq, Hx in Hs0.
  assert (Hsize : size fdata0 = Ntimes * Ndatapoints) by (unfold size; by rewrite Hs0).
  pose (idx := (shuffle (arange (size fdata0)) r2).1).
  assert (Hp : idx ≡ₚ arange (Ntimes * Ndatapoints))
    by (rewrite <- Hsize; apply shuffle_perm).
  destruct (shuffled_prefix idx _ Nbad Hp) as (_ & Hlt & _).
  rewrite <- Hsize in Hlt.
  pose proof (flat_assign_Some fdata0 (take Nbad idx) nan Hlt) as Hfa.
  destruct (flat_assign fdata0 (take Nbad idx) nan) as [fdata|] eqn:Hfdata; [|done].
  clear Hfa.
  destruct (flat_assign_shape _ _ _ _ Hw0 Hfdata) as [Hs Hw]. rewrite Hs0 in Hs.
  (* the state in which the loop starts *)
  unfold gridding_cell.
  do 4 step. do 2 step. do 2 step. step.
  fold r0 xdata r1 ydata r2.
  rewrite (bind_lift_Some _ _ _ _ _ Hwave).
  do 2 step. step. fold idx. step.
  rewrite (bind_lift_Some _ _ _ _ _ Hfdata).
  do 4 step.
  match goal with
  | |- context [for_each _ _ ?s] => set (st0 := s)
  end.
  assert (Hg0 : env st0 !! "fgrid" = Some (VMasked3 (ma_empty Ntimes)))
    by (subst st0; find_binding).
  assert (Hlen0 : length (ma_empty Ntimes) = Ntimes)
    by (unfold ma_empty; by rewrite length_fmap, length_seq).
  assert (Hall : Forall (fun n => n < length (ma_empty Ntimes) /\
      is_Some (interp_slice xdata ydata fdata (mgrid 60 50).2 (mgrid 60 50).1 n))
      (range Ntimes)).
  { apply Forall_forall. intros n Hn. apply elem_of_seq in Hn.
    split; [lia|]. apply interp_slice_is_Some; try done. lia. }
  destruct (interp_loop_run _ _ _ _ _ _ _ _ Hg0 Hall)
    as (Hres & Hit & _ & fgrid & Hfg & Hlen & Hin & _).
  destruct (confined_for_each loop_names (range Ntimes) _
              (interp_body_confined xdata ydata fdata (mgrid 60 50).2 (mgrid 60 50).1) st0)
    as [_ Hframe].
  exists xdata, ydata, idx, fdata0, fdata, fgrid.
  split; [by exists r0|]. split; [by exists r1|].
  split; [done|]. split; [done|]. split; [done|].
  split; [by rewrite Hlen|].
  split; [intros n Hn; apply Hin, elem_of_seq; lia|].
  split; [done|]. split; [rewrite Hit; unfold range; by rewrite length_seq|].
  repeat split; try done;
    (rewrite Hframe by not_in_names; subst st0; find_binding).
Qed.

(** *** The points behind one time step *)

(** The scattered points of a time step, each with its value: those whose
    value is not NaN, in the order of the data. *)
Definition selected_points (xdata ydata row : list float) : list (float * float * float) :=
  filter (fun p => PrimFloat.is_nan p.2 = false) (zip (zip xdata ydata) row).

(** Triangulate the points, interpolate their values linearly and evaluate
    on the grid. *)
Definition grid_from_points (pts : list (float * float * float))
    (xgrid ygrid : ndarray2) : marray :=
  interp_call
    (LinearTriInterpolator (Triangulation (pts.*1.*1) (pts.*1.*2)) (pts.*2))
    xgrid ygrid.

Lemma elem_of_selected_points xdata ydata row x y f :
  (x, y, f) ∈ selected_points xdata ydata row <->
  exists i, xdata !! i = Some x /\ ydata !! i = Some y /\ row !! i = Some f /\
            PrimFloat.is_nan f = false.
Proof.
  unfold selected_points. rewrite list_elem_of_filter, list_elem_of_lookup. simpl.
  split.
  - intros [Hf [i Hi]]. exists i.
    apply lookup_zip_with_Some in Hi as (p & f' & [= <- <-] & Hp & Hr).
    apply lookup_zip_with_Some in Hp as (x' & y' & [= <- <-] & Hx & Hy). done.
  - intros (i & Hx & Hy & Hr & Hf). split; [done|]. exists i.
    apply lookup_zip_with_Some. exists (x, y), f. split; [done|]. split; [|done].
    apply lookup_zip_with_Some. by exists x, y.
Qed.

Lemma interp_slice_points xdata ydata fdata xgrid ygrid n row :
  length xdata = length row -> length ydata = length row ->
  getrow fdata n = Some row ->
  interp_slice xdata ydata fdata xgrid ygrid n =
  Some (grid_from_points (selected_points xdata ydata row) xgrid ygrid).
Proof.
  intros Hx Hy Hrow. unfold interp_slice. rewrite Hrow. cbn [mbind option_bind].
  assert (Hm : length (not_isnan row) = length row)
    by (unfold not_isnan; by rewrite length_fmap).
  unfold mask_select. rewrite !decide_True by congruence. cbn [mbind option_bind].
  assert (Hz : length (zip xdata ydata) = length row)
    by (rewrite length_zip_with_l_eq; congruence).
  unfold grid_from_points, selected_points.
  rewrite <- (compress_not_isnan_filter row (zip xdata ydata) Hz).
  rewrite <- (compress_not_isnan_row row (zip xdata ydata) Hz).
  rewrite <- !compress_fmap.
  rewrite fst_zip, snd_zip by lia. done.
Qed.

(** C1. For every time step [n < Ntimes = 20] the cell ends with [fgrid[n]]
    equal to the linear interpolant, on the triangulation of exactly the
    scattered points whose value at step [n] is not NaN, evaluated on the
    60-by-50 grid: the slice is a function of those points (with their
    values) and of the grid alone. *)
Theorem interpolation_uses_the_valid_points (st : notebook) :
  Ntimes = 20 /\
  result (gridding_cell st) = Ok tt /\
  exists xdata ydata fdata xgrid ygrid fgrid,
    env (final (gridding_cell st)) !! "xdata" = Some (VFloats xdata) /\
    env (final (gridding_cell st)) !! "ydata" = Some (VFloats ydata) /\
    env (final (gridding_cell st)) !! "fdata" = Some (VArray2 fdata) /\
    env (final (gridding_cell st)) !! "xgrid" = Some (VArray2 xgrid) /\
    env (final (gridding_cell st)) !! "ygrid" = Some (VArray2 ygrid) /\
    env (final (gridding_cell st)) !! "fgrid" = Some (VMasked3 fgrid) /\
    ygrid = (mgrid 60 50).1 /\ xgrid = (mgrid 60 50).2 /\
    shape xgrid = (60, 50) /\ shape ygrid = (60, 50) /\
    well_shaped xgrid /\ well_shaped ygrid /\
    length fgrid = Ntimes /\
    forall n, n < Ntimes ->
      exists row,
        getrow fdata n = Some row /\
        fgrid !! n =
          Some (grid_from_points (selected_points xdata ydata row) xgrid ygrid) /\
        forall x y f,
          (x, y, f) ∈ selected_points xdata ydata row <->
          exists i, xdata !! i = Some x /\ ydata !! i = Some y /\
                    row !! i = Some f /\ PrimFloat.is_nan f = false.
Proof.
  destruct (gridding_cell_run st) as
    (xdata & ydata & idx & fdata0 & fdata & fgrid & [rx ->] & [ry ->] & Hwave & Hp &
     Hfdata & Hlen & Hslice & Hres & _ & Hex & Hey & _ & _ & Hef & Heyg & Hexg & Hefg).
  split; [done|]. split; [done|].
  eexists _, _, fdata, _, _, fgrid.
  do 6 (split; [eassumption|]).
  destruct (mgrid_shape 60 50) as (Hsy & Hsx & Hwy & Hwx).
  do 2 (split; [done|]). do 4 (split; [done|]).
  split; [done|]. intros n Hn.
  destruct (wave_shape _ _ _ _ Hwave) as [Hs0 Hw0].
  destruct (flat_assign_shape _ _ _ _ Hw0 Hfdata) as [Hs Hw]. rewrite Hs0 in Hs.
  unfold arange in Hs. rewrite length_seq, rand_length in Hs.
  destruct (getrow fdata n) as [row|] eqn:Hrow.
  - pose proof (getrow_length _ _ _ Hw Hrow) as Hl. rewrite Hs in Hl. simpl in Hl.
    exists row. split; [done|]. split.
    + rewrite (Hslice n Hn). apply interp_slice_points; [| |done];
        by rewrite rand_length.
    + intros x y f. apply elem_of_selected_points.
  - unfold getrow in Hrow. rewrite Hs in Hrow. by rewrite decide_True in Hrow.
Qed.

(** *** The injected gaps *)

(** The shape facts every later result starts from. *)
Lemma fdata_shape xdata ydata fdata0 idx fdata :
  length xdata = Ndatapoints ->
  wave xdata ydata (arange Ntimes) = Some fdata0 ->
  flat_assign fdata0 (take Nbad idx) nan = Some fdata ->
  shape fdata0 = (Ntimes, Ndatapoints) /\ well_shaped fdata0 /\
  shape fdata = (Ntimes, Ndatapoints) /\ well_shaped fdata.
Proof.
  intros Hx Hwave Hfdata.
  destruct (wave_shape _ _ _ _ Hwave) as [Hs0 Hw0].
  destruct (flat_assign_shape _ _ _ _ Hw0 Hfdata) as [Hs Hw].
  unfold arange in Hs0. rewrite length_seq, Hx in Hs0. by rewrite Hs, Hs0.
Qed.

(** C3. The cell ends with [idx] a permutation of the 20 * 1000 flat
    indices of [fdata]; its first [Nbad = 200] entries are 200 pairwise
    distinct positions; the entry of [fdata] at each of them is NaN, and
    the entry at every other flat position [t * 1000 + i] is still the wave
    value [sin((xdata[i] + ydata[i]) * 5.0 + t / 3.0)]. *)
Theorem bad_data_injection (st : notebook) :
  Ndatapoints = 1000 /\ Ntimes = 20 /\ Nbad = 200 /\
  result (gridding_cell st) = Ok tt /\
  exists xdata ydata idx fdata,
    env (final (gridding_cell st)) !! "xdata" = Some (VFloats xdata) /\
    env (final (gridding_cell st)) !! "ydata" = Some (VFloats ydata) /\
    env (final (gridding_cell st)) !! "idx" = Some (VInts idx) /\
    env (final (gridding_cell st)) !! "fdata" = Some (VArray2 fdata) /\
    shape fdata = (Ntimes, Ndatapoints) /\
    length (flat fdata) = Ntimes * Ndatapoints /\
    idx ≡ₚ seq 0 (Ntimes * Ndatapoints) /\
    NoDup (take Nbad idx) /\
    length (take Nbad idx) = Nbad /\
    (forall k, k ∈ take Nbad idx -> k < Ntimes * Ndatapoints) /\
    forall t i, t < Ntimes -> i < Ndatapoints ->
      exists x y,
        xdata !! i = Some x /\ ydata !! i = Some y /\
        flat fdata !! (t * Ndatapoints + i) =
          Some (if decide (t * Ndatapoints + i ∈ take Nbad idx) then nan
                else np_sin ((x + y) * 5.0 + float_of_nat t / 3.0)%float).
Proof.
  destruct (gridding_cell_run st) as
    (xdata & ydata & idx & fdata0 & fdata & fgrid & [rx Hrx] & [ry Hry] & Hwave & Hp &
     Hfdata & _ & _ & Hres & _ & Hex & Hey & _ & Hei & Hef & _).
  assert (Hx : length xdata = Ndatapoints) by (rewrite Hrx; apply rand_length).
  assert (Hy : length ydata = Ndatapoints) by (rewrite Hry; apply rand_length).
  destruct (fdata_shape _ _ _ _ _ Hx Hwave Hfdata) as (Hs0 & Hw0 & Hs & Hw).
  destruct (shuffled_prefix idx _ Nbad Hp) as (Hnd & Hlt & Hlen).
  do 4 (split; [done|]).
  exists xdata, ydata, idx, fdata.
  do 4 (split; [done|]). split; [done|].
  split; [unfold well_shaped, size in Hw; by rewrite Hw, Hs|].
  split; [done|]. split; [done|].
  split; [rewrite Hlen; unfold Nbad, Ntimes, Ndatapoints; lia|].
  split; [intros k Hk; by apply (proj1 (Forall_forall _ _) Hlt)|].
  intros t i Ht Hi.
  destruct (lookup_lt_is_Some_2 xdata i) as [x Hxi]; [lia|].
  destruct (lookup_lt_is_Some_2 ydata i) as [y Hyi]; [lia|].
  exists x, y. do 2 (split; [done|]).
  rewrite (flat_assign_lookup _ _ _ _ _ Hw0 Hfdata)
    by (unfold size; rewrite Hs0; cbn [fst snd]; nia).
  destruct (decide (t * Ndatapoints + i ∈ take Nbad idx)); [done|].
  rewrite <- Hx. by apply (wave_lookup xdata ydata Ntimes).
Qed.

(** *** How many points each time step keeps *)

(** Floating point enters here only.  [rand] draws from [0, 1), so the
    argument of [sin] is finite and its value is a number: for the values
    the generator returns, no entry of the wave is NaN before the gaps
    are injected. *)
Hypothesis wave_is_number : forall r r' x y t,
  x ∈ (rand Ndatapoints r).1 -> y ∈ (rand Ndatapoints r').1 -> t < Ntimes ->
  PrimFloat.is_nan (wave_value (x + y)%float t) = false.


(** The loop of the cell enters its body once per time step. *)
Lemma gridding_cell_iters (st : notebook) :
  result (gridding_cell st) = Ok tt /\ iters (gridding_cell st) = Ntimes.
Proof.
  destruct (gridding_cell_run st) as
    (xdata & ydata & idx & fdata0 & fdata & fgrid & _ & _ & _ & _ & _ & _ & _ &
     Hres & Hit & _).
  done.
Qed.

(** *** Where the gaps are *)

(** Every entry of [fdata] is NaN exactly when its flat position is one of
    the injected ones. *)
Lemma fdata_entry rx ry fdata0 idx fdata t i :
  wave (rand Ndatapoints rx).1 (rand Ndatapoints ry).1 (arange Ntimes) = Some fdata0 ->
  flat_assign fdata0 (take Nbad idx) nan = Some fdata ->
  t < Ntimes -> i < Ndatapoints ->
  exists v, flat fdata !! (t * Ndatapoints + i) = Some v /\
            (PrimFloat.is_nan v = true <-> t * Ndatapoints + i ∈ take Nbad idx).
Proof.
  intros Hwave Hfdata Ht Hi.
  pose proof (rand_length Ndatapoints rx) as Hx.
  pose proof (rand_length Ndatapoints ry) as Hy.
  destruct (fdata_shape _ _ _ _ _ Hx Hwave Hfdata) as (Hs0 & Hw0 & Hs & Hw).
  rewrite (flat_assign_lookup _ _ _ _ _ Hw0 Hfdata)
    by (unfold size; rewrite Hs0; cbn [fst snd]; nia).
  destruct (decide (t * Ndatapoints + i ∈ take Nbad idx)) as [Hin|Hnin].
  - exists nan. done.
  - destruct (lookup_lt_is_Some_2 (rand Ndatapoints rx).1 i) as [x Hxi]; [lia|].
    destruct (lookup_lt_is_Some_2 (rand Ndatapoints ry).1 i) as [y Hyi]; [lia|].
    exists (wave_value (x + y)%float t). split.
    + rewrite <- Hx at 1.
      by apply (wave_lookup (rand Ndatapoints rx).1 (rand Ndatapoints ry).1 Ntimes).
    + rewrite (wave_is_number rx ry); [split; [done|by intros ?]|..|done].
      * apply list_elem_of_lookup. by exists i.
      * apply list_elem_of_lookup. by exists i.
Qed.

(** One time step: the row, what the mask selects, and how much. *)
Lemma step_keeps_points st n :
  n < Ntimes ->
  exists rx ry fdata row,
    env (final (gridding_cell st)) !! "xdata" = Some (VFloats (rand Ndatapoints rx).1) /\
    env (final (gridding_cell st)) !! "ydata" = Some (VFloats (rand Ndatapoints ry).1) /\
    env (final (gridding_cell st)) !! "fdata" = Some (VArray2 fdata) /\
    getrow fdata n = Some row /\
    mask_select (not_isnan row) (rand Ndatapoints rx).1
      = Some (compress (not_isnan row) (rand Ndatapoints rx).1) /\
    mask_select (not_isnan row) (rand Ndatapoints ry).1
      = Some (compress (not_isnan row) (rand Ndatapoints ry).1) /\
    800 <= length (compress (not_isnan row) (rand Ndatapoints rx).1).
Proof.
  intros Hn.
  destruct (gridding_cell_run st) as
    (xdata & ydata & idx & fdata0 & fdata & fgrid & [rx ->] & [ry ->] & Hwave & Hp &
     Hfdata & _ & _ & _ & _ & Hex & Hey & _ & _ & Hef & _).
  pose proof (rand_length Ndatapoints rx) as Hx.
  pose proof (rand_length Ndatapoints ry) as Hy.
  destruct (fdata_shape _ _ _ _ _ Hx Hwave Hfdata) as (Hs0 & Hw0 & Hs & Hw).
  destruct (shuffled_prefix idx _ Nbad Hp) as (Hnd & Hlt & Hlen).
  destruct (getrow fdata n) as [row|] eqn:Hrow;
    [|unfold getrow in Hrow; rewrite Hs in Hrow; by rewrite decide_True in Hrow].
  pose proof (getrow_length _ _ _ Hw Hrow) as Hl. rewrite Hs in Hl. cbn [snd] in Hl.
  assert (Hm : length (not_isnan row) = Ndatapoints)
    by (unfold not_isnan; by rewrite length_fmap).
  assert (Hnan : length (filter (fun v => PrimFloat.is_nan v = true) row) <= Nbad).
  { etransitivity; [|apply Nat.eq_le_incl, (eq_trans Hlen), Nat.min_l;
                     unfold Nbad, Ntimes, Ndatapoints; lia].
    apply (nan_count_le (n * Ndatapoints)). intros i v Hi Hv.
    pose proof (lookup_lt_Some _ _ _ Hi) as Hil. rewrite Hl in Hil.
    rewrite (getrow_lookup _ _ _ _ Hrow) in Hi by (by rewrite Hs).
    rewrite Hs in Hi. cbn [snd] in Hi.
    destruct (fdata_entry rx ry _ _ _ n i Hwave Hfdata Hn Hil) as (w & Hw' & Hiff).
    rewrite Hi in Hw'. injection Hw' as <-. by apply Hiff. }
  exists rx, ry, fdata, row. do 4 (split; [done|]).
  unfold mask_select. rewrite !decide_True by congruence. do 2 (split; [done|]).
  pose proof (length_compress_not_isnan row (rand Ndatapoints rx).1) as Hc.
  unfold Nbad, Ndatapoints in *. lia.
Qed.

(** X1. With a generator that keeps its contracts and draws values on which
    the wave is a number, the cell ends with exactly [Nbad = 200] of the
    20 * 1000 entries of [fdata] NaN and every other entry a number; the
    NaN entries are those at the flat positions [idx[:200]] and no
    others. *)
Theorem exactly_Nbad_values_are_lost (st : notebook) :
  result (gridding_cell st) = Ok tt /\
  exists idx fdata,
    env (final (gridding_cell st)) !! "idx" = Some (VInts idx) /\
    env (final (gridding_cell st)) !! "fdata" = Some (VArray2 fdata) /\
    Ntimes * Ndatapoints = 20 * 1000 /\ Nbad = 200 /\
    length (flat fdata) = Ntimes * Ndatapoints /\
    length (filter (fun v => PrimFloat.is_nan v = true) (flat fdata)) = Nbad /\
    length (filter (fun v => PrimFloat.is_nan v = false) (flat fdata))
      = Ntimes * Ndatapoints - Nbad /\
    forall k v, flat fdata !! k = Some v ->
      (PrimFloat.is_nan v = true <-> k ∈ take Nbad idx).
Proof.
  destruct (gridding_cell_run st) as
    (xdata & ydata & idx & fdata0 & fdata & fgrid & [rx ->] & [ry ->] & Hwave & Hp &
     Hfdata & _ & _ & Hres & _ & _ & _ & _ & Hei & Hef & _).
  pose proof (rand_length Ndatapoints rx) as Hx.
  destruct (fdata_shape _ _ _ _ _ Hx Hwave Hfdata) as (Hs0 & Hw0 & Hs & Hw).
  destruct (shuffled_prefix idx _ Nbad Hp) as (Hnd & Hlt & Hlen).
  assert (Hflat : length (flat fdata) = Ntimes * Ndatapoints)
    by (unfold well_shaped, size in Hw; by rewrite Hw, Hs).
  assert (Hentry : forall k v, flat fdata !! k = Some v ->
            (PrimFloat.is_nan v = true <-> k ∈ take Nbad idx)).
  { intros k v Hk. pose proof (lookup_lt_Some _ _ _ Hk) as Hkl. rewrite Hflat in Hkl.
    destruct (fdata_entry rx ry _ _ _ (k `div` Ndatapoints) (k `mod` Ndatapoints)
                Hwave Hfdata) as (w & Hw' & Hiff).
    - apply Nat.Div0.div_lt_upper_bound. lia.
    - apply Nat.mod_upper_bound. done.
    - replace (k `div` Ndatapoints * Ndatapoints + k `mod` Ndatapoints) with k in *
        by (rewrite (Nat.div_mod_eq k Ndatapoints) at 1; lia).
      rewrite Hk in Hw'. by injection Hw' as <-. }
  assert (Hnan : length (filter (fun v => PrimFloat.is_nan v = true) (flat fdata)) = Nbad).
  { rewrite (nan_count_exact 0 _ (take Nbad idx) Hnd);
      [rewrite Hlen; apply Nat.min_l; unfold Nbad, Ntimes, Ndatapoints; lia|].
    intros k. split.
    - intros Hin. pose proof (proj1 (Forall_forall _ _) Hlt k Hin) as Hk.
      destruct (lookup_lt_is_Some_2 (flat fdata) k) as [v Hv]; [by rewrite Hflat|].
      exists k, v. split; [done|]. split; [done|]. by apply (Hentry k v Hv).
    - intros (i & v & -> & Hi & Hv). by apply (Hentry i v Hi). }
  split; [done|]. exists idx, fdata. do 6 (split; [done|]).
  split; [pose proof (length_filter_is_nan (flat fdata)); lia|done].
Qed.

(** X2. At every time step [n] the mask [igood] is False exactly at the
    points [i] whose flat position [n * 1000 + i] was injected, so the
    step keeps 1000 points less the number of entries of [idx[:200]] that
    fall in row [n]. *)
Theorem mask_marks_the_injected_positions (st : notebook) :
  result (gridding_cell st) = Ok tt /\
  exists xdata idx fdata,
    env (final (gridding_cell st)) !! "xdata" = Some (VFloats xdata) /\
    env (final (gridding_cell st)) !! "idx" = Some (VInts idx) /\
    env (final (gridding_cell st)) !! "fdata" = Some (VArray2 fdata) /\
    forall n, n < Ntimes ->
      exists row xs,
        getrow fdata n = Some row /\
        mask_select (not_isnan row) xdata = Some xs /\
        (forall i, i < Ndatapoints ->
           not_isnan row !! i =
             Some (bool_decide (n * Ndatapoints + i ∉ take Nbad idx))) /\
        length xs +
          length (filter (fun k => k `div` Ndatapoints = n) (take Nbad idx))
          = Ndatapoints.
Proof.
  destruct (gridding_cell_run st) as
    (xdata & ydata & idx & fdata0 & fdata & fgrid & [rx ->] & [ry ->] & Hwave & Hp &
     Hfdata & _ & _ & Hres & _ & Hex & _ & _ & Hei & Hef & _).
  pose proof (rand_length Ndatapoints rx) as Hx.
  destruct (fdata_shape _ _ _ _ _ Hx Hwave Hfdata) as (Hs0 & Hw0 & Hs & Hw).
  destruct (shuffled_prefix idx _ Nbad Hp) as (Hnd & Hlt & Hlen).
  split; [done|]. exists (rand Ndatapoints rx).1, idx, fdata. do 3 (split; [done|]).
  intros n Hn.
  destruct (getrow fdata n) as [row|] eqn:Hrow;
    [|unfold getrow in Hrow; rewrite Hs in Hrow; by rewrite decide_True in Hrow].
  pose proof (getrow_length _ _ _ Hw Hrow) as Hl. rewrite Hs in Hl. cbn [snd] in Hl.
  assert (Hentry : forall i v, row !! i = Some v ->
            (PrimFloat.is_nan v = true <-> n * Ndatapoints + i ∈ take Nbad idx)).
  { intros i v Hi. pose proof (lookup_lt_Some _ _ _ Hi) as Hil. rewrite Hl in Hil.
    rewrite (getrow_lookup _ _ _ _ Hrow) in Hi by (by rewrite Hs).
    rewrite Hs in Hi. cbn [snd] in Hi.
    destruct (fdata_entry rx ry _ _ _ n i Hwave Hfdata Hn Hil) as (w & Hw' & Hiff).
    rewrite Hi in Hw'. by injection Hw' as <-. }
  exists row, (compress (not_isnan row) (rand Ndatapoints rx).1).
  split; [done|].
  split; [unfold mask_select; rewrite decide_True;
          [done|unfold not_isnan; rewrite length_fmap; congruence]|].
  split.
  - intros i Hi. destruct (lookup_lt_is_Some_2 row i) as [v Hv]; [lia|].
    unfold not_isnan. rewrite list_lookup_fmap, Hv. cbn. f_equal.
    pose proof (Hentry i v Hv) as Hiff.
    destruct (PrimFloat.is_nan v); cbn.
    + symmetry. apply bool_decide_eq_false. intros Hnin. by apply Hnin, Hiff.
    + symmetry. apply bool_decide_eq_true. intros Hin. by apply Hiff in Hin.
  - pose proof (length_compress_not_isnan row (rand Ndatapoints rx).1) as Hc.
    rewrite <- (nan_count_exact (n * Ndatapoints) row); [lia|by apply NoDup_filter|].
    intros k. rewrite list_elem_of_filter. split.
    + intros [Hdiv Hin].
      pose proof (Nat.div_mod_eq k Ndatapoints) as Hk.
      pose proof (Nat.mod_upper_bound k Ndatapoints) as Hm.
      destruct (lookup_lt_is_Some_2 row (k `mod` Ndatapoints)) as [v Hv];
        [unfold Ndatapoints in *; lia|].
      exists (k `mod` Ndatapoints), v. split; [lia|]. split; [done|].
      apply (Hentry _ _ Hv). by replace (n * Ndatapoints + k `mod` Ndatapoints) with k by lia.
    + intros (i & v & -> & Hi & Hv).
      pose proof (lookup_lt_Some _ _ _ Hi) as Hil. rewrite Hl in Hil.
      split; [|by apply (Hentry i v Hi)].
      rewrite Nat.add_comm, Nat.div_add by done. rewrite Nat.div_small by done. done.
Qed.

(** *** The draws and what the loop leaves behind *)

(** What the three calls to the generator return, and the state they
    leave it in, from the state [r] the cell finds it in. *)
Definition drawn_xdata (r : rng) : list float := (rand Ndatapoints r).1.

Definition drawn_ydata (r : rng) : list float :=
  (rand Ndatapoints (rand Ndatapoints r).2).1.

Definition drawn_idx (r : rng) : list nat :=
  (shuffle (arange (Ntimes * Ndatapoints))
     (rand Ndatapoints (rand Ndatapoints r).2).2).1.

Definition generator_after (r : rng) : rng :=
  (shuffle (arange (Ntimes * Ndatapoints))
     (rand Ndatapoints (rand Ndatapoints r).2).2).2.

(** The cell up to its loop. *)
Lemma gridding_cell_prelude st :
  exists fdata0 fdata st0,
    wave (drawn_xdata (random_state st)) (drawn_ydata (random_state st))
      (arange Ntimes) = Some fdata0 /\
    flat_assign fdata0 (take Nbad (drawn_idx (random_state st))) nan = Some fdata /\
    shape fdata = (Ntimes, Ndatapoints) /\ well_shaped fdata /\
    gridding_cell st =
      for_each (range Ntimes)
        (interp_body (drawn_xdata (random_state st)) (drawn_ydata (random_state st))
           fdata (mgrid 60 50).2 (mgrid 60 50).1) st0 /\
    random_state st0 = generator_after (random_state st) /\
    env st0 !! "xdata" = Some (VFloats (drawn_xdata (random_state st))) /\
    env st0 !! "ydata" = Some (VFloats (drawn_ydata (random_state st))) /\
    env st0 !! "idx" = Some (VInts (drawn_idx (random_state st))) /\
    env st0 !! "fdata" = Some (VArray2 fdata) /\
    env st0 !! "fgrid" = Some (VMasked3 (ma_empty Ntimes)).
Proof.
  unfold drawn_xdata, drawn_ydata, drawn_idx, generator_after.
  pose (r0 := random_state st).
  pose (xdata := (rand Ndatapoints r0).1). pose (r1 := (rand Ndatapoints r0).2).
  pose (ydata := (rand Ndatapoints r1).1). pose (r2 := (rand Ndatapoints r1).2).
  fold r0 xdata r1 ydata r2.
  assert (Hx : length xdata = Ndatapoints) by apply rand_length.
  assert (Hy : length ydata = Ndatapoints) by apply rand_length.
  destruct (wave xdata ydata (arange Ntimes)) as [fdata0|] eqn:Hwave;
    [|by rewrite wave_Some in Hwave by congruence].
  destruct (wave_shape _ _ _ _ Hwave) as [Hs0 Hw0].
  unfold arange in Hs0 at 1. rewrite length_seq, Hx in Hs0.
  assert (Hsize : size fdata0 = Ntimes * Ndatapoints) by (unfold size; by rewrite Hs0).
  pose (idx := (shuffle (arange (Ntimes * Ndatapoints)) r2).1).
  fold idx.
  assert (Hp : idx ≡ₚ arange (Ntimes * Ndatapoints)) by apply shuffle_perm.
  destruct (shuffled_prefix idx _ Nbad Hp) as (_ & Hlt & _).
  rewrite <- Hsize in Hlt.
  pose proof (flat_assign_Some fdata0 (take Nbad idx) nan Hlt) as Hfa.
  destruct (flat_assign fdata0 (take Nbad idx) nan) as [fdata|] eqn:Hfdata; [|done].
  clear Hfa.
  destruct (flat_assign_shape _ _ _ _ Hw0 Hfdata) as [Hs Hw]. rewrite Hs0 in Hs.
  exists fdata0, fdata. eexists.
  do 4 (split; [done|]). split.
  - unfold gridding_cell.
    do 4 step. do 2 step. do 2 step. step.
    fold r0 xdata r1 ydata r2.
    rewrite (bind_lift_Some _ _ _ _ _ Hwave).
    do 2 step. step. rewrite Hsize. fold idx. step.
    rewrite (bind_lift_Some _ _ _ _ _ Hfdata).
    do 4 step. reflexivity.
  - cbn [random_state]. split; [done|]. repeat split; find_binding.
Qed.

(** X4. The cell calls the generator exactly three times, in the order
    [rand], [rand], [shuffle]: [xdata] is the first draw, [ydata] the
    second, drawn from the state the first left, and [idx] the shuffle of
    [arange(20 * 1000)] from the state the second left.  The loop draws
    nothing: the state the shuffle leaves is the state the cell ends in. *)
Theorem generator_is_drawn_three_times (st : notebook) :
  result (gridding_cell st) = Ok tt /\
  env (final (gridding_cell st)) !! "xdata"
    = Some (VFloats (drawn_xdata (random_state st))) /\
  env (final (gridding_cell st)) !! "ydata"
    = Some (VFloats (drawn_ydata (random_state st))) /\
  env (final (gridding_cell st)) !! "idx"
    = Some (VInts (drawn_idx (random_state st))) /\
  random_state (final (gridding_cell st)) = generator_after (random_state st).
Proof.
  destruct (gridding_cell_prelude st) as
    (fdata0 & fdata & st0 & Hwave & Hfdata & Hs & Hw & -> & Hr0 & Hex & Hey & Hei & _ & Hg0).
  assert (Hall : Forall (fun n => n < length (ma_empty Ntimes) /\
      is_Some (interp_slice (drawn_xdata (random_state st)) (drawn_ydata (random_state st))
                 fdata (mgrid 60 50).2 (mgrid 60 50).1 n))
      (range Ntimes)).
  { apply Forall_forall. intros n Hn. apply elem_of_seq in Hn.
    split; [unfold ma_empty; rewrite length_fmap, length_seq; lia|].
    apply interp_slice_is_Some; try done; [apply rand_length..|lia]. }
  destruct (interp_loop_run _ _ _ _ _ _ _ _ Hg0 Hall) as (Hres & _ & Hrs & _).
  destruct (confined_for_each loop_names (range Ntimes) _
              (interp_body_confined (drawn_xdata (random_state st))
                 (drawn_ydata (random_state st)) fdata (mgrid 60 50).2 (mgrid 60 50).1) st0)
    as [_ Hframe].
  split; [done|].
  rewrite !Hframe by not_in_names. rewrite Hrs. done.
Qed.

(** One time step, with the objects it binds. *)
Lemma interp_body_bindings xdata ydata fdata xgrid ygrid n st g row xs ys fs :
  env st !! "fgrid" = Some (VMasked3 g) ->
  n < length g ->
  getrow fdata n = Some row ->
  mask_select (not_isnan row) xdata = Some xs ->
  mask_select (not_isnan row) ydata = Some ys ->
  mask_select (not_isnan row) row = Some fs ->
  result (interp_body xdata ydata fdata xgrid ygrid n st) = Ok tt /\
  env (final (interp_body xdata ydata fdata xgrid ygrid n st)) !! "n"
    = Some (VInt n) /\
  env (final (interp_body xdata ydata fdata xgrid ygrid n st)) !! "igood"
    = Some (VBools (not_isnan row)) /\
  env (final (interp_body xdata ydata fdata xgrid ygrid n st)) !! "t"
    = Some (VTri (Triangulation xs ys)) /\
  env (final (interp_body xdata ydata fdata xgrid ygrid n st)) !! "interp"
    = Some (VInterp (LinearTriInterpolator (Triangulation xs ys) fs)).
Proof.
  intros Hg Hn Hrow Hxs Hys Hfs. unfold interp_body.
  rewrite bind_assign, (bind_lift_Some _ _ _ _ _ Hrow). cbv zeta.
  rewrite bind_assign, (bind_lift_Some _ _ _ _ _ Hxs), (bind_lift_Some _ _ _ _ _ Hys).
  rewrite bind_assign, (bind_lift_Some _ _ _ _ _ Hfs), bind_assign.
  rewrite (bind_get_masked3 _ _ _ g)
    by (cbn [env]; by rewrite !lookup_insert_ne by done).
  rewrite (bind_lift_Some _ _ _ _ (<[n:=_]> g))
    by (unfold setitem; by rewrite decide_True).
  cbn [assign modify result final env]. repeat split; find_binding.
Qed.

(** X5. When the cell is over, the names the loop binds hold the objects
    of the last time step: [n] is [Ntimes - 1 = 19], [igood] is the mask
    of row 19 of [fdata], and [t] and [interp] are the triangulation and
    the interpolant built from the points that mask selects. *)
Theorem loop_names_after_the_cell (st : notebook) :
  result (gridding_cell st) = Ok tt /\
  exists xdata ydata fdata row xs ys fs,
    env (final (gridding_cell st)) !! "xdata" = Some (VFloats xdata) /\
    env (final (gridding_cell st)) !! "ydata" = Some (VFloats ydata) /\
    env (final (gridding_cell st)) !! "fdata" = Some (VArray2 fdata) /\
    getrow fdata 19 = Some row /\
    mask_select (not_isnan row) xdata = Some xs /\
    mask_select (not_isnan row) ydata = Some ys /\
    mask_select (not_isnan row) row = Some fs /\
    env (final (gridding_cell st)) !! "n" = Some (VInt 19) /\
    env (final (gridding_cell st)) !! "igood" = Some (VBools (not_isnan row)) /\
    env (final (gridding_cell st)) !! "t" = Some (VTri (Triangulation xs ys)) /\
    env (final (gridding_cell st)) !! "interp"
      = Some (VInterp (LinearTriInterpolator (Triangulation xs ys) fs)).
Proof.
  destruct (gridding_cell_prelude st) as
    (fdata0 & fdata & st0 & Hwave & Hfdata & Hs & Hw & Hcell & Hr0 & Hex & Hey & _ & Hef & Hg0).
  set (xdata := drawn_xdata (random_state st)) in *.
  set (ydata := drawn_ydata (random_state st)) in *.
  assert (Hx : length xdata = Ndatapoints) by apply rand_length.
  assert (Hy : length ydata = Ndatapoints) by apply rand_length.
  destruct (confined_for_each loop_names (range Ntimes) _
              (interp_body_confined xdata ydata fdata (mgrid 60 50).2 (mgrid 60 50).1) st0)
    as [_ Hframe].
  rewrite <- Hcell in Hframe.
  (* the first nineteen steps *)
  assert (Hall : Forall (fun n => n < length (ma_empty Ntimes) /\
      is_Some (interp_slice xdata ydata fdata (mgrid 60 50).2 (mgrid 60 50).1 n))
      (seq 0 19)).
  { apply Forall_forall. intros n Hn. apply elem_of_seq in Hn.
    split; [unfold ma_empty; rewrite length_fmap, length_seq; unfold Ntimes; lia|].
    apply interp_slice_is_Some; try done. unfold Ntimes. lia. }
  destruct (interp_loop_run _ _ _ _ _ _ _ _ Hg0 Hall)
    as (Hres & _ & _ & g & Hg & Hlen & _).
  (* the last one *)
  destruct (getrow fdata 19) as [row|] eqn:Hrow;
    [|unfold getrow in Hrow; rewrite Hs in Hrow; by rewrite decide_True in Hrow].
  pose proof (getrow_length _ _ _ Hw Hrow) as Hl. rewrite Hs in Hl. cbn [snd] in Hl.
  assert (Hm : length (not_isnan row) = Ndatapoints)
    by (unfold not_isnan; by rewrite length_fmap).
  assert (Hxs : mask_select (not_isnan row) xdata = Some (compress (not_isnan row) xdata))
    by (unfold mask_select; rewrite decide_True; [done|congruence]).
  assert (Hys : mask_select (not_isnan row) ydata = Some (compress (not_isnan row) ydata))
    by (unfold mask_select; rewrite decide_True; [done|congruence]).
  assert (Hfs : mask_select (not_isnan row) row = Some (compress (not_isnan row) row))
    by (unfold mask_select; rewrite decide_True; [done|congruence]).
  assert (H19 : 19 < length g)
    by (rewrite Hlen; unfold ma_empty; rewrite length_fmap, length_seq; unfold Ntimes; lia).
  destruct (interp_body_bindings xdata ydata fdata (mgrid 60 50).2 (mgrid 60 50).1 19
              _ g row _ _ _ Hg H19 Hrow Hxs Hys Hfs) as (Hlast & Hn & Hi & Ht & Hinterp).
  assert (Hsplit : gridding_cell st =
            Run (result (interp_body xdata ydata fdata (mgrid 60 50).2 (mgrid 60 50).1 19
                   (final (for_each (seq 0 19)
                      (interp_body xdata ydata fdata (mgrid 60 50).2 (mgrid 60 50).1) st0))))
                (final (interp_body xdata ydata fdata (mgrid 60 50).2 (mgrid 60 50).1 19
                   (final (for_each (seq 0 19)
                      (interp_body xdata ydata fdata (mgrid 60 50).2 (mgrid 60 50).1) st0))))
                (iters (gridding_cell st))).
  { rewrite Hcell at 1. unfold range.
    change (seq 0 Ntimes) with (seq 0 19 ++ [19]). rewrite for_each_app.
    destruct (for_each (seq 0 19)
                (interp_body xdata ydata fdata (mgrid 60 50).2 (mgrid 60 50).1) st0)
      as [res s1 k1] eqn:Hfirst.
    cbn [result final] in *. subst res.
    rewrite (bind_step _ _ _ _ _ _ Hfirst). cbn [for_each].
    rewrite (bind_step tick _ s1 tt s1 1) by done. cbn [result final iters].
    destruct (interp_body xdata ydata fdata (mgrid 60 50).2 (mgrid 60 50).1 19 s1)
      as [res2 s2 k2] eqn:Hbody.
    cbn [result final] in *. subst res2.
    rewrite (bind_step _ _ _ _ _ _ Hbody). cbn [ret result final iters].
    f_equal. rewrite Hcell. unfold range.
    change (seq 0 Ntimes) with (seq 0 19 ++ [19]). rewrite for_each_app.
    rewrite (bind_step _ _ _ _ _ _ Hfirst). cbn [for_each iters].
    rewrite (bind_step tick _ s1 tt s1 1) by done. cbn [iters].
    rewrite (bind_step _ _ _ _ _ _ Hbody). done. }
  split; [rewrite Hsplit; exact Hlast|].
  exists xdata, ydata, fdata, row, (compress (not_isnan row) xdata),
    (compress (not_isnan row) ydata), (compress (not_isnan row) row).
  split; [rewrite Hframe by not_in_names; exact Hex|].
  split; [rewrite Hframe by not_in_names; exact Hey|].
  split; [rewrite Hframe by not_in_names; exact Hef|].
  do 4 (split; [done|]).
  rewrite Hsplit. cbn [final]. done.
Qed.

(** *** The cell does not depend on the namespace it starts in *)

(** Two notebooks agree on the names [X] when their generators are in one
    state and each name of [X] is bound alike (or unbound) in both. *)
Definition agree (X : list string) (st st' : notebook) : Prop :=
  random_state st = random_state st' /\
  forall x, x ∈ X -> env st !! x = env st' !! x.

(** A piece of a cell is stable from [X] to [Y] when, started in two
    notebooks that agree on [X], it ends the same way in both, after the
    same number of loop entries and with the generators still in one
    state; every name the two starts bound alike is bound alike at the end;
    and if it ends normally the two ends agree on [Y]. *)
Definition stable {A} (X Y : list string) (m : M notebook A) : Prop :=
  forall st st', agree X st st' ->
    result (m st) = result (m st') /\
    iters (m st) = iters (m st') /\
    random_state (final (m st)) = random_state (final (m st')) /\
    (forall x, env st !! x = env st' !! x ->
               env (final (m st)) !! x = env (final (m st')) !! x) /\
    (forall a, result (m st) = Ok a ->
       forall x, x ∈ Y -> env (final (m st)) !! x = env (final (m st')) !! x).

Lemma stable_ret {A} X (a : A) : stable X X (ret a).
Proof. intros st st' [Hr He]. cbn. repeat split; auto. Qed.

Lemma stable_lift {A} X e (o : option A) : stable X X (lift e o).
Proof. intros st st' [Hr He]. destruct o; cbn; repeat split; auto. Qed.

Lemma stable_tick X : stable X X (tick (St := notebook)).
Proof. intros st st' [Hr He]. cbn. repeat split; auto. Qed.

Lemma stable_assign X x v : stable X (x :: X) (assign x v).
Proof.
  intros st st' [Hr He]. cbn. repeat split; [done|..].
  - intros y Hy. destruct (decide (x = y)) as [->|Hne].
    + by rewrite !lookup_insert_eq.
    + by rewrite !lookup_insert_ne.
  - intros _ _ y Hy. destruct (decide (x = y)) as [->|Hne].
    + by rewrite !lookup_insert_eq.
    + rewrite !lookup_insert_ne by done. apply He.
      by apply elem_of_cons in Hy as [->|Hy].
Qed.

Lemma stable_rand X n : stable X X (np_random_rand n).
Proof.
  intros st st' [Hr He]. unfold np_random_rand. cbn. rewrite Hr.
  repeat split; auto.
Qed.

Lemma stable_shuffle X a : stable X X (np_random_shuffle a).
Proof.
  intros st st' [Hr He]. unfold np_random_shuffle. cbn. rewrite Hr.
  repeat split; auto.
Qed.

Lemma stable_get_masked3 X x : x ∈ X -> stable X X (get_masked3 x).
Proof.
  intros Hx st st' [Hr He]. unfold get_masked3. rewrite <- (He x Hx).
  destruct (env st !! x) as [[]|]; cbn; repeat split; auto.
Qed.

Lemma stable_bind {A B} X Y Z (m : M notebook A) (k : A -> M notebook B) :
  stable X Y m -> (forall a, stable Y Z (k a)) -> stable X Z (bind m k).
Proof.
  intros Hm Hk st st' Hag.
  destruct (Hm st st' Hag) as (Hres & Hit & Hrs & Hpt & HY).
  unfold bind. rewrite <- Hres, <- Hit.
  destruct (result (m st)) as [a|e]; cbn [result final iters].
  - assert (Hag' : agree Y (final (m st)) (final (m st')))
      by (split; [done|by apply (HY a)]).
    destruct (Hk a _ _ Hag') as (Hres' & Hit' & Hrs' & Hpt' & HZ).
    rewrite <- Hres', <- Hit'. repeat split; auto.
  - repeat split; auto. intros a Ha. discriminate Ha.
Qed.

Lemma stable_weaken {A} X Y Y' (m : M notebook A) :
  Y' ⊆ Y -> stable X Y m -> stable X Y' m.
Proof.
  intros Hsub Hm st st' Hag. destruct (Hm st st' Hag) as (? & ? & ? & ? & HY).
  repeat split; auto. intros a Ha x Hx. by apply (HY a), Hsub.
Qed.

Lemma stable_for_each {A} X (xs : list A) (body : A -> M notebook unit) :
  (forall x, stable X X (body x)) -> stable X X (for_each xs body).
Proof.
  intros Hb. induction xs as [|x xs IH]; cbn [for_each].
  - apply stable_ret.
  - apply (stable_bind X X); [apply stable_tick|]. intros _.
    apply (stable_bind X X); [apply Hb|]. by intros _.
Qed.

Ltac stabilise :=
  cbv zeta;
  lazymatch goal with
  | |- stable _ _ (bind _ _) => eapply stable_bind; [stabilise|intros ?; stabilise]
  | |- stable _ _ (assign _ _) => apply stable_assign
  | |- stable _ _ (lift _ _) => apply stable_lift
  | |- stable _ _ (np_random_rand _) => apply stable_rand
  | |- stable _ _ (np_random_shuffle _) => apply stable_shuffle
  | |- stable _ _ (get_masked3 _) => apply stable_get_masked3; in_names
  | |- stable _ _ (ret _) => apply stable_ret
  | |- stable _ _ tick => apply stable_tick
  | |- _ => idtac
  end.

Ltac sub_names :=
  let x := fresh in
  let Hin := fresh in
  intros x Hin;
  repeat (apply elem_of_cons in Hin as [->|Hin]; [in_names|]);
  by apply elem_of_nil in Hin.

(** The names bound alike once the first time step is over. *)
Definition settled_names : list string :=
  ["fgrid"; "interp"; "t"; "igood"; "n"; "fgrid"; "xgrid"; "ygrid"; "fdata";
   "idx"; "idx"; "fdata"; "time"; "ydata"; "xdata"; "Nbad"; "Ntimes";
   "Ndatapoints"; "tri"].

Lemma interp_body_stable X xdata ydata fdata xgrid ygrid n :
  "fgrid" ∈ X ->
  stable X ("fgrid" :: "interp" :: "t" :: "igood" :: "n" :: X)
    (interp_body xdata ydata fdata xgrid ygrid n).
Proof.
  intros HX. unfold interp_body. stabilise. exact HX.
Qed.

Lemma gridding_cell_stable : stable [] bound_names gridding_cell.
Proof.
  apply (stable_weaken _ settled_names); [unfold bound_names, settled_names; sub_names|].
  unfold gridding_cell, range.
  change (seq 0 Ntimes) with (0 :: seq 1 19). cbn [for_each].
  stabilise.
  - apply interp_body_stable. in_names.
  - apply (stable_for_each settled_names). intros n.
    apply (stable_weaken _ ("fgrid" :: "interp" :: "t" :: "igood" :: "n" :: settled_names)).
    + unfold settled_names. sub_names.
    + apply interp_body_stable. unfold settled_names. in_names.
Qed.

(** The kernels the embedding speaks of.  The cell reads two names that it
    never binds: [np], which the notebook's first cell binds to NumPy, and
    [range], which is the builtin as long as the namespace does not shadow
    it.  [gridding_cell] calls the library routines directly, so it is the
    cell as run in a kernel where both hold. *)
Definition numpy_kernel (st : notebook) : Prop :=
  env st !! "np" = Some (VModule "numpy") /\ env st !! "range" = None.

(** X3. Take two kernels in which [np] is NumPy and [range] is the
    builtin, with their generators in the same state, whatever else their
    namespaces hold.  The cell leaves [np] and [range] as they are, ends
    the same way in both, after as many loop entries, and leaves the
    generators in one state; if it ends normally, each of the sixteen
    names it binds is bound to the same object in both.  Besides [np] and
    [range] the cell reads nothing from the namespace it finds: it reads
    [fgrid] only after having bound it. *)
Theorem gridding_cell_is_self_contained (st st' : notebook) :
  numpy_kernel st -> numpy_kernel st' ->
  random_state st = random_state st' ->
  numpy_kernel (final (gridding_cell st)) /\
  numpy_kernel (final (gridding_cell st')) /\
  result (gridding_cell st) = result (gridding_cell st') /\
  iters (gridding_cell st) = iters (gridding_cell st') /\
  random_state (final (gridding_cell st)) = random_state (final (gridding_cell st')) /\
  (result (gridding_cell st) = Ok tt ->
   forall x, x ∈ bound_names ->
     env (final (gridding_cell st)) !! x = env (final (gridding_cell st')) !! x).
Proof.
  intros [Hnp Hrange] [Hnp' Hrange'] Hr.
  assert (Hag : agree [] st st')
    by (split; [done|]; intros x Hx; by apply elem_of_nil in Hx).
  destruct (gridding_cell_stable st st' Hag) as (Hres & Hit & Hrs & _ & HY).
  destruct (gridding_cell_confined st) as [_ Hframe].
  destruct (gridding_cell_confined st') as [_ Hframe'].
  unfold bound_names in Hframe, Hframe'.
  split; [split; (rewrite Hframe by not_in_names; done)|].
  split; [split; (rewrite Hframe' by not_in_names; done)|].
  repeat split; try done. apply HY.
Qed.

End Gridding.

(** ** Looking up a date (NetCDF notebook, the search for the time index) *)

Section TimeIndex.

(** The [datetime] objects of the [time] array, compared with [==]. *)
Context {datetime : Type} `{EqDecision datetime}.

(** [time == date]: the boolean array of the elementwise comparison. *)
Definition eq_mask (time : list datetime) (date : datetime) : list bool :=
  (fun t => bool_decide (t = date)) <$> time.

(** [np.where(mask)[0]] for a one-dimensional mask: the indices at which
    the mask is set, ascending; [off] is the index of the head. *)
Fixpoint where_from (off : nat) (mask : list bool) : list nat :=
  match mask with
  | [] => []
  | b :: mask' =>
      if b then off :: where_from (S off) mask' else where_from (S off) mask'
  end.

Definition np_where (mask : list bool) : list nat := where_from 0 mask.

(** [tind = np.where(time==date)[0][0]]: the first entry of the index
    array; indexing an empty array is an [IndexError], [None] here. *)
Definition time_index (time : list datetime) (date : datetime) : option nat :=
  head (np_where (eq_mask time date)).

Lemma elem_of_where_from off mask k :
  k ∈ where_from off mask <-> exists i, k = off + i /\ mask !! i = Some true.
Proof.
  revert off. induction mask as [|b mask IH]; intros off; cbn [where_from].
  - split; [by intros ?%elem_of_nil|by intros (i & _ & ?)].
  - assert (Htail : k ∈ where_from (S off) mask <->
                    exists i, k = off + S i /\ mask !! i = Some true).
    { rewrite IH. split; intros (i & -> & Hi); exists i; (split; [lia|done]). }
    destruct b.
    + rewrite elem_of_cons, Htail. split.
      * intros [->|(i & -> & Hi)]; [exists 0; split; [lia|done]|by exists (S i)].
      * intros ([|i] & -> & Hi); [left; lia|right; by exists i].
    + rewrite Htail. split.
      * intros (i & -> & Hi). by exists (S i).
      * intros ([|i] & -> & Hi); [done|by exists i].
Qed.

Lemma head_where_from off mask k :
  head (where_from off mask) = Some k <->
  exists i, k = off + i /\ mask !! i = Some true /\
            forall j, j < i -> mask !! j = Some false.
Proof.
  revert off. induction mask as [|b mask IH]; intros off; cbn [where_from].
  - split; [done|by intros (i & _ & ? & _)].
  - destruct b.
    + cbn [head]. split.
      * intros [= <-]. exists 0. split; [lia|]. split; [done|]. intros j Hj. lia.
      * intros ([|i] & -> & Hi & Hbefore); [f_equal; lia|].
        specialize (Hbefore 0 ltac:(lia)). done.
    + rewrite IH. split.
      * intros (i & -> & Hi & Hbefore). exists (S i). split; [lia|]. split; [done|].
        intros [|j] Hj; [done|]. apply Hbefore. lia.
      * intros ([|i] & -> & Hi & Hbefore); [done|].
        exists i. split; [lia|]. split; [done|].
        intros j Hj. apply (Hbefore (S j)). lia.
Qed.

Lemma eq_mask_lookup time date i b :
  eq_mask time date !! i = Some b <->
  exists t, time !! i = Some t /\ b = bool_decide (t = date).
Proof.
  unfold eq_mask. rewrite list_lookup_fmap.
  destruct (time !! i) as [t|]; cbn.
  - split; [intros [= <-]; by exists t|by intros (t' & [= <-] & ->)].
  - split; [done|by intros (t' & ? & _)].
Qed.

(** X14. [tind = np.where(time==date)[0][0]] succeeds with [tind] exactly
    when [tind] is the first position at which [time] holds [date]: then
    [time[tind]] is the date and no earlier entry is, so [tind] is a valid
    index of the time axis. *)
Theorem time_index_is_the_first_match
    (time : list datetime) (date : datetime) (tind : nat) :
  time_index time date = Some tind <->
  time !! tind = Some date /\ forall j, j < tind -> time !! j <> Some date.
Proof.
  unfold time_index, np_where. rewrite head_where_from. split.
  - intros (i & -> & Hi & Hbefore). cbn [Nat.add].
    apply eq_mask_lookup in Hi as (t & Ht & Heq).
    symmetry in Heq. apply bool_decide_eq_true in Heq as ->.
    split; [done|]. intros j Hj Hjd.
    specialize (Hbefore j Hj). apply eq_mask_lookup in Hbefore as (t' & Ht' & Heq).
    rewrite Hjd in Ht'. injection Ht' as <-.
    symmetry in Heq. by apply bool_decide_eq_false in Heq.
  - intros [Ht Hbefore]. exists tind. split; [done|]. split.
    + apply eq_mask_lookup. exists date. split; [done|].
      symmetry. by apply bool_decide_eq_true.
    + intros j Hj.
      destruct (lookup_lt_is_Some_2 time j) as [t' Ht'];
        [apply lookup_lt_Some in Ht; lia|].
      apply eq_mask_lookup. exists t'. split; [done|].
      symmetry. apply bool_decide_eq_false. intros ->. by apply (Hbefore j Hj).
Qed.

(** X15. [np.where(time==date)[0]] lists exactly the positions at which
    [time] holds [date]; it is empty, and taking its first entry raises
    [IndexError], exactly when the date does not occur in [time] (as for
    the notebook's second date, between two monthly means). *)
Theorem time_index_of_a_missing_date (time : list datetime) (date : datetime) :
  (forall k, k ∈ np_where (eq_mask time date) <-> time !! k = Some date) /\
  (np_where (eq_mask time date) = [] <-> date ∉ time) /\
  (time_index time date = None <-> date ∉ time).
Proof.
  assert (Hpos : forall k, k ∈ np_where (eq_mask time date) <-> time !! k = Some date).
  { intros k. unfold np_where. rewrite elem_of_where_from. split.
    - intros (i & -> & Hi). cbn [Nat.add].
      apply eq_mask_lookup in Hi as (t & Ht & Heq).
      symmetry in Heq. by apply bool_decide_eq_true in Heq as ->.
    - intros Hk. exists k. split; [done|]. apply eq_mask_lookup.
      exists date. split; [done|]. symmetry. by apply bool_decide_eq_true. }
  assert (Hnil : np_where (eq_mask time date) = [] <-> date ∉ time).
  { split.
    - intros Hnil (k & Hk)%list_elem_of_lookup.
      apply Hpos in Hk. rewrite Hnil in Hk. by apply elem_of_nil in Hk.
    - intros Hnot. destruct (np_where (eq_mask time date)) as [|k ks] eqn:Hw; [done|].
      exfalso. apply Hnot, list_elem_of_lookup. exists k. apply Hpos. by left. }
  split; [done|]. split; [done|].
  rewrite <- Hnil. unfold time_index.
  by destruct (np_where (eq_mask time date)).
Qed.

End TimeIndex.

(** With numbers standing for the dates. *)
Example time_index_example : time_index [10; 20; 30; 20] 20 = Some 1.
Proof. reflexivity. Qed.

Example time_index_missing : time_index [10; 20; 30] 25 = None.
Proof. reflexivity. Qed.

(** ** The hurricane-track cell (materials/maps.ipynb, cell 20) *)

(** *** Text *)

(** The characters [str.split()] splits on, within ASCII: tab, line feed,
    vertical tab, form feed, carriage return, the four separators
    28 to 31, and the space. *)
Definition isspace (c : ascii) : bool :=
  let n := nat_of_ascii c in
  ((9 <=? n) && (n <=? 13)) || ((28 <=? n) && (n <=? 32)).

(** [s.split()]: the maximal runs of characters that are not white space,
    in order; [cur] is the run being read. *)
Fixpoint split_go (cur : string) (s : string) : list string :=
  match s with
  | EmptyString => if decide (cur = "") then [] else [cur]
  | String c s' =>
      if isspace c
      then (if decide (cur = "") then split_go "" s' else cur :: split_go "" s')
      else split_go (cur +:+ String c "") s'
  end.

Definition split (s : string) : list string := split_go "" s.

Example split_example :
  split "  -75.5,23.1,0 -76.0,24.2,0
   -77,25,0 " = ["-75.5,23.1,0"; "-76.0,24.2,0"; "-77,25,0"].
Proof. reflexivity. Qed.

Example split_blank : split "   " = [].
Proof. reflexivity. Qed.

(** The characters of a string. *)
Definition chars (s : string) : list ascii := String.list_ascii_of_string s.

Lemma chars_app s1 s2 : chars (s1 +:+ s2) = chars s1 ++ chars s2.
Proof.
  induction s1 as [|c s1 IH]; [done|].
  change (c :: chars (s1 +:+ s2) = c :: (chars s1 ++ chars s2)). by rewrite IH.
Qed.

Lemma chars_nil s : chars s = [] -> s = "".
Proof. by destruct s. Qed.

Lemma split_go_pieces cur s :
  Forall (fun c => isspace c = false) (chars cur) ->
  Forall (fun w => w <> "" /\ Forall (fun c => isspace c = false) (chars w))
    (split_go cur s).
Proof.
  revert cur. induction s as [|c s IH]; intros cur Hcur; cbn [split_go].
  - case_decide; [constructor|]. by repeat constructor.
  - destruct (isspace c) eqn:Hc.
    + case_decide.
      * apply IH. constructor.
      * constructor; [done|]. apply IH. constructor.
    + apply IH. rewrite chars_app. apply Forall_app. split; [done|].
      by repeat constructor.
Qed.

Lemma split_go_chars cur s :
  split_go cur s ≫= chars = chars cur ++ filter (fun c => isspace c = false) (chars s).
Proof.
  revert cur. induction s as [|c s IH]; intros cur;
    cbn [split_go chars String.list_ascii_of_string].
  - rewrite filter_nil, app_nil_r. case_decide as Hcur.
    + subst cur. reflexivity.
    + rewrite bind_cons. apply app_nil_r.
  - fold (chars s). rewrite filter_cons. destruct (isspace c) eqn:Hc.
    + rewrite (decide_False (P := true = false)) by done. case_decide as Hcur.
      * subst. apply IH.
      * by rewrite bind_cons, IH.
    + rewrite (decide_True (P := false = false)) by done.
      rewrite IH, chars_app, <- app_assoc. done.
Qed.

Lemma split_nil_iff (s : string) :
  split s = [] <-> Forall (fun c => isspace c = true) (chars s).
Proof.
  pose proof (split_go_pieces "" s (Forall_nil_2 _)) as Hp.
  pose proof (split_go_chars "" s) as Hc. fold (split s) in Hp, Hc.
  change (chars "" ++ ?l) with l in Hc.
  split.
  - intros Hnil. rewrite Hnil in Hc. cbn in Hc.
    apply Forall_forall. intros c Hin.
    destruct (isspace c) eqn:Hsp; [done|].
    assert (Hf : c ∈ filter (fun c => isspace c = false) (chars s))
      by (by apply list_elem_of_filter).
    rewrite <- Hc in Hf. by apply elem_of_nil in Hf.
  - intros Hall. destruct (split s) as [|w ws]; [done|].
    apply Forall_cons in Hp as [[Hw _] _].
    assert (Hempty : filter (fun c => isspace c = false) (chars s) = []).
    { clear Hc. induction Hall as [|c cs Hc1 _ IH]; [done|].
      rewrite filter_cons, decide_False by congruence. exact IH. }
    rewrite Hempty, bind_cons in Hc. apply app_eq_nil in Hc as [Hc _].
    by apply chars_nil in Hc.
Qed.

(** *** The document as lxml.objectify presents it *)

(** An XML element: its tag, its text (Python's [None] when it has none)
    and its child elements. *)
#[local] Set Warnings "-register-all".
Inductive element :=
| Element (tag : string) (text : option string) (children : list element).

Definition tag (e : element) : string := let 'Element t _ _ := e in t.
Definition text (e : element) : option string := let 'Element _ x _ := e in x.
Definition children (e : element) : list element := let 'Element _ _ c := e in c.

(** An objectified element knows its same-tag siblings under its parent:
    [len] counts them and an integer index selects among them. *)
Record objref := ObjRef { self : element; siblings : list element }.

Definition root (e : element) : objref := {| self := e; siblings := [e] |}.

(** [r.name]: the first child with that tag; [AttributeError] when there
    is none. *)
Definition getattr (r : objref) (name : string) : option objref :=
  match filter (fun c => tag c = name) (children (self r)) with
  | [] => None
  | c :: cs => Some {| self := c; siblings := c :: cs |}
  end.

(** [r.a.b.c] *)
Definition nav (r : objref) (path : list string) : option objref :=
  foldl (fun o name => o ≫= (fun r' => getattr r' name)) (Some r) path.

(** [len(r)] *)
Definition len (r : objref) : nat := length (siblings r).

(** [r[i]]; [IndexError] out of range. *)
Definition getitem (r : objref) (i : nat) : option objref :=
  (fun e => {| self := e; siblings := siblings r |}) <$> siblings r !! i.

(** The elements [r[0]], ..., [r[len(r) - 1]]. *)
Definition items (r : objref) : list objref :=
  (fun e => {| self := e; siblings := siblings r |}) <$> siblings r.

Section Hurricanes.

(** The array element type and [np.fromstring(_, sep=',')], which turns one
    coordinate string into a one-dimensional array. *)
Variable num : Type.
Variable fromstring : string -> list num.

(** A two-dimensional array, by rows. *)
Definition array2 : Type := list (list num).

(** [np.array(rows)] for a list of one-dimensional arrays is
    two-dimensional when there is at least one row and all rows have one
    length.  [a[:, :2]] needs that: an empty list gives a one-dimensional
    array, on which the slice is an [IndexError], and so does a ragged
    list (where later NumPy versions raise from [np.array] itself); in
    both cases [None] here. *)
Definition np_array (rows : list (list num)) : option array2 :=
  match rows with
  | [] => None
  | r :: rs => if decide (Forall (fun r' => length r' = length r) rs)
               then Some rows else None
  end.

(** [a[:, :2]] *)
Definition first_two_columns (a : array2) : array2 := take 2 <$> a.

(** [a[:, j]]; [IndexError] when the array has no column [j]. *)
Definition column (a : array2) (j : nat) : option (list num) :=
  mapM (fun r => r !! j) a.

(** The lists the cell appends to, and what it hands to [plt.plot]. *)
Record tracks_state := TracksState {
  tracks : list array2;
  track : list (list num);
  plotted : list (list num * list num)
}.

Definition set_tracks (v : list array2) : M tracks_state unit :=
  modify (fun s => {| tracks := v; track := track s; plotted := plotted s |}).

Definition set_track (v : list (list num)) : M tracks_state unit :=
  modify (fun s => {| tracks := tracks s; track := v; plotted := plotted s |}).

(** [track.append(r)] *)
Definition append_track (r : list num) : M tracks_state unit :=
  modify (fun s => {| tracks := tracks s; track := track s ++ [r]; plotted := plotted s |}).

(** [tracks.append(a)] *)
Definition append_tracks (a : array2) : M tracks_state unit :=
  modify (fun s => {| tracks := tracks s ++ [a]; track := track s; plotted := plotted s |}).

(** [plt.plot(xs, ys, ...)] *)
Definition plot (xs ys : list num) : M tracks_state unit :=
  modify (fun s => {| tracks := tracks s; track := track s;
                      plotted := plotted s ++ [(xs, ys)] |}).

Definition folders_path : list string := ["Document"; "Folder"; "Folder"].
Definition placemarks_path : list string := ["Document"; "Placemark"].
Definition coordinates_path : list string := ["LineString"; "coordinates"].

(** One storm, from its placemark on: the body of [for storm in ...]
    after the placemark has been looked up. *)
Definition read_placemark (placemark : objref) : M tracks_state unit :=
  let* coordinates := lift AttributeError (nav placemark coordinates_path) in
  let track_text := text (self coordinates) in
  set_track [] ;;
  let* locations := lift AttributeError (split <$> track_text) in
  for_each locations (fun location => append_track (fromstring location)) ;;
  let* s := get in
  let* a := lift IndexError (np_array (track s)) in
  append_tracks (first_two_columns a).

(** The body of [for storm in range(len(doc.Document.Placemark))]:
    [hurricanes.Document.Folder.Folder[decade].Document.Placemark[storm]]
    and the rest. *)
Definition read_storm (hurricanes : objref) (decade storm : nat) : M tracks_state unit :=
  let* folders := lift AttributeError (nav hurricanes folders_path) in
  let* folder := lift IndexError (getitem folders decade) in
  let* placemarks := lift AttributeError (nav folder placemarks_path) in
  let* placemark := lift IndexError (getitem placemarks storm) in
  read_placemark placemark.

(** The [try] block of one decade. *)
Definition decade_body (hurricanes : objref) (decade : nat) (doc : objref)
    : M tracks_state unit :=
  let* placemarks := lift AttributeError (nav doc placemarks_path) in
  for_each (range (len placemarks)) (read_storm hurricanes decade).

(** The body of [for decade in range(len(hurricanes.Document.Folder.Folder))]. *)
Definition read_decade (hurricanes : objref) (decade : nat) : M tracks_state unit :=
  let* folders := lift AttributeError (nav hurricanes folders_path) in
  let* doc := lift IndexError (getitem folders decade) in
  try_except (decade_body hurricanes decade doc) (ret tt).

(** [for track in tracks: plt.plot(track[:, 0], track[:, 1], ...)]; cell 22
    runs the same loop with [ax.plot]. *)
Definition plot_tracks : M tracks_state unit :=
  let* s := get in
  for_each (tracks s) (fun a =>
    set_track a ;;
    let* xs := lift IndexError (column a 0) in
    let* ys := lift IndexError (column a 1) in
    plot xs ys).

(** The reading loop. *)
Definition read_tracks (hurricanes : objref) : M tracks_state unit :=
  set_tracks [] ;;
  let* folders := lift AttributeError (nav hurricanes folders_path) in
  for_each (range (len folders)) (read_decade hurricanes).

(** The cell, from [tracks = []] on; [hurricanes] is the parsed document. *)
Definition hurricane_cell (hurricanes : objref) : M tracks_state unit :=
  read_tracks hurricanes ;;
  plot_tracks.

(** *** What the loops compute *)

(** The array a storm contributes, when reading it raises nothing. *)
Definition storm_track (placemark : objref) : option array2 :=
  coordinates ← nav placemark coordinates_path;
  track_text ← text (self coordinates);
  a ← np_array (fromstring <$> split track_text);
  Some (first_two_columns a).

(** The coordinate strings of a storm, the storms of a decade, the decades
    of the document; empty where the path does not exist. *)
Definition locations_of (placemark : objref) : list string :=
  match nav placemark coordinates_path ≫= (fun c => text (self c)) with
  | Some t => split t
  | None => []
  end.

Definition placemarks_of (doc : objref) : list objref :=
  match nav doc placemarks_path with
  | Some placemarks => items placemarks
  | None => []
  end.

Definition folders_of (hurricanes : objref) : list objref :=
  match nav hurricanes folders_path with
  | Some folders => items folders
  | None => []
  end.

(** The leading successes of a list of attempts. *)
Fixpoint good_prefix {A} (os : list (option A)) : list A :=
  match os with
  | Some a :: os' => a :: good_prefix os'
  | _ => []
  end.

(** The arrays a decade contributes: those of its storms up to the first
    one that raises. *)
Definition decade_tracks (doc : objref) : list array2 :=
  good_prefix (storm_track <$> placemarks_of doc).

(** Loop bodies entered while reading one storm, one decade. *)
Definition storm_steps (placemark : objref) : nat := 1 + length (locations_of placemark).
Definition decade_steps (doc : objref) : nat :=
  1 + sum_list (storm_steps <$> placemarks_of doc).

Lemma read_locations_run locs st :
  for_each locs (fun location => append_track (fromstring location)) st =
  Run (Ok tt)
      {| tracks := tracks st; track := track st ++ (fromstring <$> locs);
         plotted := plotted st |}
      (length locs).
Proof.
  revert st. induction locs as [|l locs IH]; intros st.
  - cbn. rewrite app_nil_r. by destruct st.
  - rewrite (for_each_cons l locs _ st _ 0 eq_refl), IH.
    cbn [result final iters tracks track plotted fmap list_fmap length].
    by rewrite <- app_assoc.
Qed.

Lemma read_placemark_run pm st :
  plotted (final (read_placemark pm st)) = plotted st /\
  iters (read_placemark pm st) <= length (locations_of pm) /\
  match storm_track pm with
  | Some a => result (read_placemark pm st) = Ok tt /\
              tracks (final (read_placemark pm st)) = tracks st ++ [a]
  | None => (exists e, result (read_placemark pm st) = Raise e) /\
            tracks (final (read_placemark pm st)) = tracks st
  end.
Proof.
  unfold read_placemark, storm_track, locations_of, set_track, append_tracks.
  destruct (nav pm coordinates_path) as [c|]; cbn [mbind option_bind].
  2:{ rewrite bind_lift_None. cbn. repeat split; [lia|by eexists]. }
  rewrite (bind_lift_Some _ _ _ _ _ eq_refl). cbv zeta. rewrite bind_modify.
  destruct (text (self c)) as [txt|]; cbn [mbind option_bind fmap option_fmap option_map].
  2:{ rewrite bind_lift_None. cbn. repeat split; [lia|by eexists]. }
  rewrite (bind_lift_Some _ _ _ _ _ eq_refl).
  rewrite (bind_step _ _ _ _ _ _ (read_locations_run _ _)).
  cbn [tracks track plotted app]. rewrite bind_get. cbn [tracks track plotted].
  destruct (np_array (fromstring <$> split txt)) as [a|]; cbn [mbind option_bind].
  - rewrite (bind_lift_Some _ _ _ _ _ eq_refl). cbn. repeat split; lia.
  - rewrite bind_lift_None. cbn. repeat split; [lia|by eexists].
Qed.

Lemma sum_list_cons x l : sum_list (x :: l) = x + sum_list l.
Proof. done. Qed.

Lemma read_placemarks_run pms : forall st,
  plotted (final (for_each pms read_placemark st)) = plotted st /\
  tracks (final (for_each pms read_placemark st)) =
    tracks st ++ good_prefix (storm_track <$> pms) /\
  iters (for_each pms read_placemark st) <= sum_list (storm_steps <$> pms).
Proof.
  induction pms as [|pm pms IH]; intros st.
  - cbn. by rewrite app_nil_r.
  - destruct (read_placemark_run pm st) as (Hp & Hi & Ht).
    destruct (read_placemark pm st) as [[[]|e] s1 n1] eqn:Hr;
      cbn [result final iters] in Hp, Hi, Ht.
    + rewrite (for_each_cons _ _ _ _ _ _ Hr). cbn [result final iters].
      destruct (IH s1) as (Hp1 & Ht1 & Hi1).
      destruct (storm_track pm) as [a|] eqn:Ha; [|by destruct Ht as [[? ?] _]].
      destruct Ht as [_ Ht]. rewrite !fmap_cons, sum_list_cons, Ha.
      unfold storm_steps at 1. cbn [good_prefix].
      split; [congruence|]. split; [|lia].
      rewrite Ht1, Ht, <- app_assoc. done.
    + rewrite (for_each_cons_raise _ _ _ _ _ _ _ Hr). cbn [result final iters].
      destruct (storm_track pm) as [a|] eqn:Ha; [by destruct Ht as [? _]|].
      destruct Ht as [_ Ht]. rewrite !fmap_cons, sum_list_cons, Ha.
      unfold storm_steps at 1. cbn [good_prefix].
      split; [done|]. split; [by rewrite app_nil_r|lia].
Qed.

(** The decade as a loop over its placemark elements. *)
Definition read_folder (doc : objref) : M tracks_state unit :=
  let* placemarks := lift AttributeError (nav doc placemarks_path) in
  for_each (items placemarks) read_placemark.

Lemma getitem_items r i : getitem r i = items r !! i.
Proof. unfold getitem, items. by rewrite list_lookup_fmap. Qed.

Lemma len_items r : len r = length (items r).
Proof. unfold len, items. by rewrite length_fmap. Qed.

Lemma read_storm_placemark hurricanes folders doc placemarks pm decade storm st :
  nav hurricanes folders_path = Some folders ->
  getitem folders decade = Some doc ->
  nav doc placemarks_path = Some placemarks ->
  getitem placemarks storm = Some pm ->
  read_storm hurricanes decade storm st = read_placemark pm st.
Proof.
  intros Hf Hd Hp Hs. unfold read_storm.
  by rewrite (bind_lift_Some _ _ _ _ _ Hf), (bind_lift_Some _ _ _ _ _ Hd),
    (bind_lift_Some _ _ _ _ _ Hp), (bind_lift_Some _ _ _ _ _ Hs).
Qed.

Lemma decade_body_folder hurricanes folders doc decade st :
  nav hurricanes folders_path = Some folders ->
  getitem folders decade = Some doc ->
  decade_body hurricanes decade doc st = read_folder doc st.
Proof.
  intros Hf Hd. unfold decade_body, read_folder.
  destruct (nav doc placemarks_path) as [placemarks|] eqn:Hp; [|done].
  rewrite !(bind_lift_Some _ _ _ _ _ eq_refl).
  unfold range. rewrite len_items. apply for_each_seq_lookup.
  intros storm pm Hs s. rewrite <- getitem_items in Hs.
  by apply (read_storm_placemark _ folders doc placemarks).
Qed.

Lemma read_folder_run doc st :
  plotted (final (read_folder doc st)) = plotted st /\
  tracks (final (read_folder doc st)) = tracks st ++ decade_tracks doc /\
  iters (read_folder doc st) <= sum_list (storm_steps <$> placemarks_of doc).
Proof.
  unfold read_folder, decade_tracks, placemarks_of.
  destruct (nav doc placemarks_path) as [placemarks|].
  - rewrite (bind_lift_Some _ _ _ _ _ eq_refl). apply read_placemarks_run.
  - rewrite bind_lift_None. cbn. by rewrite app_nil_r.
Qed.

Lemma read_decade_run hurricanes folders doc decade st :
  nav hurricanes folders_path = Some folders ->
  getitem folders decade = Some doc ->
  read_decade hurricanes decade st =
  Run (Ok tt) (final (decade_body hurricanes decade doc st))
      (iters (decade_body hurricanes decade doc st)).
Proof.
  intros Hf Hd. unfold read_decade.
  rewrite (bind_lift_Some _ _ _ _ _ Hf), (bind_lift_Some _ _ _ _ _ Hd).
  unfold try_except, ret.
  destruct (decade_body hurricanes decade doc st) as [[[]|e] s n];
    cbn [result final iters]; [done|]. f_equal. lia.
Qed.

Lemma read_decades_ok hurricanes folders decades : forall st,
  nav hurricanes folders_path = Some folders ->
  Forall (fun d => d < len folders) decades ->
  result (for_each decades (read_decade hurricanes) st) = Ok tt.
Proof.
  induction decades as [|d decades IH]; intros st Hf Hds; [done|].
  apply Forall_cons in Hds as [Hd Hds].
  destruct (getitem folders d) as [doc|] eqn:Hdoc.
  - rewrite (for_each_cons _ _ _ _ _ _ (read_decade_run _ _ _ _ st Hf Hdoc)).
    cbn [result]. by apply IH.
  - rewrite getitem_items in Hdoc. apply lookup_ge_None in Hdoc.
    rewrite <- len_items in Hdoc. lia.
Qed.

(** *** Nothing is ever taken off [tracks] *)

(** A piece of the cell grows [tracks] when the list it leaves, however it
    ends, starts with the list it found. *)
Definition grows {A} (m : M tracks_state A) : Prop :=
  forall st, tracks st `prefix_of` tracks (final (m st)).

Lemma grows_ret {A} (a : A) : grows (ret a).
Proof. by intros st. Qed.

Lemma grows_lift {A} e (o : option A) : grows (lift e o).
Proof. intros st. by destruct o. Qed.

Lemma grows_get : grows get.
Proof. by intros st. Qed.

Lemma grows_tick : grows tick.
Proof. by intros st. Qed.

Lemma grows_modify f :
  (forall st, tracks st `prefix_of` tracks (f st)) -> grows (modify f).
Proof. intros Hf st. apply Hf. Qed.

Lemma grows_bind {A B} (m : M tracks_state A) (k : A -> M tracks_state B) :
  grows m -> (forall a, grows (k a)) -> grows (bind m k).
Proof.
  intros Hm Hk st. unfold bind. specialize (Hm st).
  destruct (result (m st)) as [a|e]; cbn [final]; [|done].
  etransitivity; [exact Hm|apply Hk].
Qed.

Lemma grows_for_each {A} (xs : list A) (body : A -> M tracks_state unit) :
  (forall x, grows (body x)) -> grows (for_each xs body).
Proof.
  intros Hb. induction xs as [|x xs IH]; cbn [for_each].
  - apply grows_ret.
  - apply grows_bind; [apply grows_tick|]. intros _.
    apply grows_bind; [apply Hb|]. by intros _.
Qed.

Lemma grows_try_except (m handler : M tracks_state unit) :
  grows m -> grows handler -> grows (try_except m handler).
Proof.
  intros Hm Hh st. unfold try_except. specialize (Hm st).
  destruct (result (m st)); cbn [final]; [done|].
  etransitivity; [exact Hm|apply Hh].
Qed.

Ltac grow :=
  cbv zeta;
  repeat lazymatch goal with
  | |- grows (bind _ _) => apply grows_bind; [|intros ?]
  | |- grows (lift _ _) => apply grows_lift
  | |- grows (ret _) => apply grows_ret
  | |- grows get => apply grows_get
  | |- grows (for_each _ _) => apply grows_for_each; intros ?
  | |- grows (try_except _ _) => apply grows_try_except
  | |- grows (modify _) =>
      apply grows_modify; intros ?; cbn [tracks];
      first [ reflexivity | by apply prefix_app_r ]
  end.

Lemma read_placemark_grows pm : grows (read_placemark pm).
Proof. unfold read_placemark, set_track, append_track, append_tracks. grow. Qed.

Lemma read_storm_grows hurricanes decade storm :
  grows (read_storm hurricanes decade storm).
Proof. unfold read_storm. grow. apply read_placemark_grows. Qed.

Lemma decade_body_grows hurricanes decade doc :
  grows (decade_body hurricanes decade doc).
Proof. unfold decade_body. grow. apply read_storm_grows. Qed.

Lemma read_decade_grows hurricanes decade : grows (read_decade hurricanes decade).
Proof. unfold read_decade. grow. apply decade_body_grows. Qed.

(** C2. Let decade [decade] raise [e] while its storms are read, after
    the decades before it have left the state [before].  The loop body
    for that decade still ends normally, in the very state the failure
    left (the handler does nothing); [tracks] in that state is what
    [before] held followed by the arrays of the storms read before the
    failure; the loop goes on with the decades after it from that state
    and ends normally; and everything collected up to the failure is
    still, unaltered, a prefix of the final [tracks]. *)
Theorem decade_failure_is_swallowed
    (hurricanes folders doc : objref) (decade : nat) (st : tracks_state) (e : exn) :
  nav hurricanes folders_path = Some folders ->
  getitem folders decade = Some doc ->
  let before := final (for_each (range decade) (read_decade hurricanes) st) in
  let failed := decade_body hurricanes decade doc before in
  let rest := for_each (seq (S decade) (len folders - S decade))
                (read_decade hurricanes) (final failed) in
  let whole := for_each (range (len folders)) (read_decade hurricanes) st in
  result failed = Raise e ->
  result (read_decade hurricanes decade before) = Ok tt /\
  final (read_decade hurricanes decade before) = final failed /\
  tracks (final failed) = tracks before ++ decade_tracks doc /\
  tracks before `prefix_of` tracks (final failed) /\
  result whole = Ok tt /\
  final whole = final rest /\
  tracks (final failed) `prefix_of` tracks (final whole).
Proof.
  intros Hf Hd before failed rest whole Hraise.
  assert (Hlt : decade < len folders).
  { rewrite getitem_items in Hd. apply lookup_lt_Some in Hd. by rewrite len_items. }
  pose proof (read_decade_run _ _ _ _ before Hf Hd) as Hrun. fold failed in Hrun.
  assert (Hbefore : result (for_each (range decade) (read_decade hurricanes) st) = Ok tt).
  { apply (read_decades_ok _ folders); [done|].
    apply Forall_forall. intros d Hin. apply elem_of_seq in Hin. lia. }
  assert (Hrest : result rest = Ok tt).
  { apply (read_decades_ok _ folders); [done|].
    apply Forall_forall. intros d Hin. apply elem_of_seq in Hin. lia. }
  assert (Hwhole : result whole = result rest /\ final whole = final rest).
  { assert (Hsplit : seq 0 (len folders) =
                     seq 0 decade ++ decade :: seq (S decade) (len folders - S decade)).
    { replace (len folders) with (decade + S (len folders - S decade)) at 1 by lia.
      by rewrite seq_app. }
    subst whole. unfold range in *. rewrite Hsplit, for_each_app.
    subst before.
    destruct (for_each (seq 0 decade) (read_decade hurricanes) st)
      as [res s n] eqn:Hpre.
    cbn [result final] in *. subst res.
    rewrite (bind_step _ _ _ _ _ _ Hpre). cbn [result final].
    rewrite (for_each_cons _ _ _ _ _ _ Hrun). done. }
  destruct Hwhole as [Hwr Hwf].
  split; [by rewrite Hrun|]. split; [by rewrite Hrun|].
  split; [subst failed; rewrite (decade_body_folder _ _ _ _ _ Hf Hd);
          apply read_folder_run|].
  split; [apply decade_body_grows|].
  split; [by rewrite Hwr|]. split; [done|].
  rewrite Hwf. apply grows_for_each. intros d. apply read_decade_grows.
Qed.

(** *** The whole reading loop *)

(** A decade with its failure swallowed: it always ends normally, in the
    state reading the folder left. *)
Definition read_folder_swallowed (doc : objref) : M tracks_state unit :=
  fun st => Run (Ok tt) (final (read_folder doc st)) (iters (read_folder doc st)).

Lemma read_decade_folder hurricanes folders doc decade st :
  nav hurricanes folders_path = Some folders ->
  items folders !! decade = Some doc ->
  read_decade hurricanes decade st = read_folder_swallowed doc st.
Proof.
  intros Hf Hd. rewrite <- getitem_items in Hd.
  rewrite (read_decade_run _ _ _ _ _ Hf Hd).
  by rewrite (decade_body_folder _ _ _ _ _ Hf Hd).
Qed.

Lemma read_folders_run docs : forall st,
  result (for_each docs read_folder_swallowed st) = Ok tt /\
  plotted (final (for_each docs read_folder_swallowed st)) = plotted st /\
  tracks (final (for_each docs read_folder_swallowed st)) =
    tracks st ++ (docs ≫= decade_tracks) /\
  iters (for_each docs read_folder_swallowed st) <= sum_list (decade_steps <$> docs).
Proof.
  induction docs as [|doc docs IH]; intros st.
  - cbn. by rewrite app_nil_r.
  - rewrite (for_each_cons doc docs read_folder_swallowed st _ _ eq_refl).
    cbn [result final iters].
    destruct (read_folder_run doc st) as (Hp & Ht & Hi).
    destruct (IH (final (read_folder doc st))) as (Hr1 & Hp1 & Ht1 & Hi1).
    rewrite fmap_cons, sum_list_cons, bind_cons. unfold decade_steps at 1.
    split; [done|]. split; [congruence|]. split; [|lia].
    by rewrite Ht1, Ht, <- app_assoc.
Qed.

Lemma read_tracks_run hurricanes st :
  (is_Some (nav hurricanes folders_path) ->
   result (read_tracks hurricanes st) = Ok tt) /\
  plotted (final (read_tracks hurricanes st)) = plotted st /\
  tracks (final (read_tracks hurricanes st)) = folders_of hurricanes ≫= decade_tracks /\
  iters (read_tracks hurricanes st) <= sum_list (decade_steps <$> folders_of hurricanes).
Proof.
  unfold read_tracks, set_tracks, folders_of. rewrite bind_modify.
  destruct (nav hurricanes folders_path) as [folders|] eqn:Hf.
  - rewrite (bind_lift_Some _ _ _ _ _ eq_refl).
    unfold range. rewrite len_items.
    rewrite (for_each_seq_lookup (items folders) _ read_folder_swallowed 0)
      by (intros i doc Hi s; by apply (read_decade_folder _ folders)).
    match goal with
    | |- context [for_each _ _ ?s] => destruct (read_folders_run (items folders) s)
                                         as (Hr & Hp & Ht & Hi)
    end.
    done.
  - rewrite bind_lift_None. cbn. split; [by intros [? ?]|]. split; [done|]. split; [done|lia].
Qed.

(** *** The plot loop *)

(** An array has columns 0 and 1. *)
Definition plottable (a : array2) : Prop :=
  is_Some (column a 0) /\ is_Some (column a 1).

Lemma plot_loop_run tracks0 : forall st,
  tracks (final (for_each tracks0 (fun a =>
      set_track a ;;
      let* xs := lift IndexError (column a 0) in
      let* ys := lift IndexError (column a 1) in
      plot xs ys) st)) = tracks st /\
  iters (for_each tracks0 (fun a =>
      set_track a ;;
      let* xs := lift IndexError (column a 0) in
      let* ys := lift IndexError (column a 1) in
      plot xs ys) st) <= length tracks0 /\
  (Forall plottable tracks0 ->
   result (for_each tracks0 (fun a =>
      set_track a ;;
      let* xs := lift IndexError (column a 0) in
      let* ys := lift IndexError (column a 1) in
      plot xs ys) st) = Ok tt).
Proof.
  induction tracks0 as [|a tracks0 IH]; intros st; [by cbn|].
  destruct (column a 0) as [xs|] eqn:Hxs; [destruct (column a 1) as [ys|] eqn:Hys|].
  - erewrite for_each_cons; last first.
    { unfold set_track, plot. rewrite bind_modify.
      rewrite (bind_lift_Some _ _ _ _ _ Hxs), (bind_lift_Some _ _ _ _ _ Hys).
      reflexivity. }
    cbn [result final iters].
    match goal with
    | |- context [for_each _ _ ?s] => destruct (IH s) as (Ht & Hi & Hr)
    end.
    split; [by rewrite Ht|]. split; [cbn [length]; lia|].
    intros Hall. apply Forall_cons in Hall as [_ Hall]. by apply Hr.
  - erewrite for_each_cons_raise; last first.
    { unfold set_track, plot. rewrite bind_modify.
      rewrite (bind_lift_Some _ _ _ _ _ Hxs), Hys, bind_lift_None. reflexivity. }
    cbn [result final iters tracks length]. split; [done|]. split; [lia|].
    intros Hall. apply Forall_cons in Hall as [[_ [? Hc]] _]. by rewrite Hys in Hc.
  - erewrite for_each_cons_raise; last first.
    { unfold set_track, plot. rewrite bind_modify, Hxs, bind_lift_None. reflexivity. }
    cbn [result final iters tracks length]. split; [done|]. split; [lia|].
    intros Hall. apply Forall_cons in Hall as [[[? Hc] _] _]. by rewrite Hxs in Hc.
Qed.

Lemma plot_tracks_iters st : iters (plot_tracks st) <= length (tracks st).
Proof.
  unfold plot_tracks. rewrite bind_get.
  by destruct (plot_loop_run (tracks st) st) as (_ & Hi & _).
Qed.

Lemma length_good_prefix {A} (os : list (option A)) :
  length (good_prefix os) <= length os.
Proof.
  induction os as [|[a|] os IH]; cbn [good_prefix length]; lia.
Qed.

Lemma elem_of_good_prefix {A} (os : list (option A)) a :
  a ∈ good_prefix os -> Some a ∈ os.
Proof.
  induction os as [|[b|] os IH]; cbn [good_prefix]; intros Ha.
  - by apply elem_of_nil in Ha.
  - apply elem_of_cons in Ha as [->|Ha]; [by left|]. right. by apply IH.
  - by apply elem_of_nil in Ha.
Qed.

Lemma length_decade_tracks docs :
  length (docs ≫= decade_tracks) <=
  sum_list ((fun doc => length (placemarks_of doc)) <$> docs).
Proof.
  induction docs as [|doc docs IH]; [done|].
  rewrite bind_cons, length_app, fmap_cons, sum_list_cons.
  pose proof (length_good_prefix (storm_track <$> placemarks_of doc)) as Hl.
  rewrite length_fmap in Hl. fold (decade_tracks doc) in Hl. lia.
Qed.

(** Loop bodies the cell can enter on a document: one per decade, one per
    storm, one per coordinate string, and one plot per storm. *)
Definition cell_steps (hurricanes : objref) : nat :=
  sum_list (decade_steps <$> folders_of hurricanes) +
  sum_list ((fun doc => length (placemarks_of doc)) <$> folders_of hurricanes).

Lemma hurricane_cell_run hurricanes st :
  tracks (final (hurricane_cell hurricanes st)) = folders_of hurricanes ≫= decade_tracks /\
  iters (hurricane_cell hurricanes st) <= cell_steps hurricanes /\
  (is_Some (nav hurricanes folders_path) ->
   Forall plottable (folders_of hurricanes ≫= decade_tracks) ->
   result (hurricane_cell hurricanes st) = Ok tt).
Proof.
  unfold hurricane_cell, plot_tracks, cell_steps.
  destruct (read_tracks_run hurricanes st) as (Hr & _ & Ht & Hi).
  pose proof (length_decade_tracks (folders_of hurricanes)) as Hlen.
  destruct (read_tracks hurricanes st) as [[[]|e] s n] eqn:Hrun;
    cbn [result final iters] in *.
  - rewrite (bind_step _ _ _ _ _ _ Hrun), bind_get. cbn [result final iters].
    destruct (plot_loop_run (tracks s) s) as (Ht' & Hi' & Hr').
    rewrite <- Ht in *.
    split; [exact Ht'|].
    split; [apply Nat.add_le_mono; [exact Hi|by etransitivity]|].
    intros _ Hall. by apply Hr'.
  - rewrite (bind_raise _ _ _ _ _ _ Hrun). cbn [result final iters].
    split; [done|]. split; [lia|]. intros Hn. by specialize (Hr Hn).
Qed.

(** *** The shape of a track *)

(** An array with exactly two columns. *)
Definition two_columns (a : array2) : Prop := Forall (fun r => length r = 2) a.

Lemma np_array_Some rows a :
  np_array rows = Some a ->
  a = rows /\ rows <> [] /\ exists k, Forall (fun r => length r = k) rows.
Proof.
  unfold np_array. destruct rows as [|r rs]; [done|].
  case_decide as Hall; [|done]. intros [= <-].
  split; [done|]. split; [done|]. exists (length r). by constructor.
Qed.

Lemma column_is_Some (a : array2) j :
  Forall (fun r => j < length r) a -> is_Some (column a j).
Proof.
  intros Hall. unfold column. apply mapM_is_Some.
  eapply Forall_impl; [exact Hall|]. intros r Hr. by apply lookup_lt_is_Some_2.
Qed.

(** C9 (amended). Every array in [tracks] comes from one storm with at
    least one coordinate string; the strings of that storm all parse to the
    same number [k] of components, and the array has one row per string,
    the first two components of it, so [min k 2] columns.  It is a
    two-column array, on which [track[:, 0]] and [track[:, 1]] are in
    bounds, when [k] is at least two. *)
Theorem track_columns (hurricanes : objref) (st : tracks_state) (a : array2) :
  a ∈ tracks (final (hurricane_cell hurricanes st)) ->
  exists doc placemark k,
    doc ∈ folders_of hurricanes /\
    placemark ∈ placemarks_of doc /\
    locations_of placemark <> [] /\
    Forall (fun location => length (fromstring location) = k) (locations_of placemark) /\
    a = (fun location => take 2 (fromstring location)) <$> locations_of placemark /\
    Forall (fun row => length row = k `min` 2) a /\
    (2 <= k -> two_columns a /\ plottable a).
Proof.
  destruct (hurricane_cell_run hurricanes st) as (-> & _ & _).
  intros (doc & Ha & Hdoc)%list_elem_of_bind.
  apply elem_of_good_prefix, list_elem_of_fmap in Ha as (pm & Hpm & Hin).
  exists doc, pm. symmetry in Hpm. unfold storm_track in Hpm. unfold locations_of.
  destruct (nav pm coordinates_path) as [c|]; [|done]. cbn [mbind option_bind] in *.
  destruct (text (self c)) as [txt|]; [|done]. cbn [mbind option_bind] in *.
  destruct (np_array (fromstring <$> split txt)) as [rows|] eqn:Hrows; [|done].
  cbn [mbind option_bind] in Hpm. injection Hpm as <-.
  apply np_array_Some in Hrows as (-> & Hne & k & Hk).
  apply Forall_fmap in Hk. exists k.
  assert (Hrow : Forall (fun row => length row = k `min` 2)
                   (first_two_columns (fromstring <$> split txt))).
  { unfold first_two_columns. apply Forall_fmap, Forall_fmap.
    eapply Forall_impl; [exact Hk|]. intros l Hl. cbn.
    rewrite length_take, Hl. lia. }
  split; [done|]. split; [done|].
  split; [intros Hnil; by rewrite Hnil in Hne|].
  split; [done|].
  split; [unfold first_two_columns; by rewrite <- list_fmap_compose|].
  split; [done|]. intros H2. split; [|split].
  - unfold two_columns. eapply Forall_impl; [exact Hrow|].
    intros r Hr. cbn beta in Hr. lia.
  - apply column_is_Some. eapply Forall_impl; [exact Hrow|].
    intros r Hr. cbn beta in Hr. lia.
  - apply column_is_Some. eapply Forall_impl; [exact Hrow|].
    intros r Hr. cbn beta in Hr. lia.
Qed.

(** *** Which storms are collected, and how the cell can end *)

Lemma good_prefix_first_failure {A} (os : list (option A)) i :
  os !! i = Some None ->
  (forall j, j < i -> exists a, os !! j = Some (Some a)) ->
  Some <$> good_prefix os = take i os.
Proof.
  revert i. induction os as [|o os IH]; intros i Hi Hbefore; [done|].
  destruct i as [|i].
  - simpl in Hi. injection Hi as ->. done.
  - destruct (Hbefore 0) as [a Ha]; [lia|]. simpl in Ha. injection Ha as ->.
    cbn [good_prefix take fmap list_fmap]. f_equal. apply IH; [done|].
    intros j Hj. apply (Hbefore (S j)). lia.
Qed.

Lemma good_prefix_all {A B} (f : A -> option B) (g : A -> B) l :
  Forall (fun x => f x = Some (g x)) l -> good_prefix (f <$> l) = g <$> l.
Proof.
  induction 1 as [|x l Hx _ IH]; [done|].
  rewrite !fmap_cons, Hx. cbn [good_prefix]. by rewrite IH.
Qed.

(** X6. Whatever state the cell starts in, it ends with [tracks] holding,
    decade by decade in document order, the arrays of each decade's storms
    up to the first storm that raises: the list is a function of the
    document alone, so running the cell again does not duplicate it. *)
Theorem tracks_depend_on_the_document_only
    (hurricanes : objref) (st st' : tracks_state) :
  tracks (final (hurricane_cell hurricanes st)) = folders_of hurricanes ≫= decade_tracks /\
  tracks (final (hurricane_cell hurricanes st)) =
    tracks (final (hurricane_cell hurricanes st')) /\
  tracks (final (hurricane_cell hurricanes (final (hurricane_cell hurricanes st)))) =
    tracks (final (hurricane_cell hurricanes st)).
Proof.
  destruct (hurricane_cell_run hurricanes (final (hurricane_cell hurricanes st)))
    as (-> & _).
  destruct (hurricane_cell_run hurricanes st) as (-> & _).
  by destruct (hurricane_cell_run hurricanes st') as (-> & _).
Qed.

(** X7. If storm [i] of a decade raises and the storms before it do not,
    the decade adds to [tracks] the arrays of its first [i] storms and
    nothing else: the storms after storm [i] are never read, whether they
    are well formed or not.  The loop body of the decade still ends
    normally. *)
Theorem storms_after_a_failure_are_skipped
    (hurricanes folders doc pm : objref) (decade i : nat) (st : tracks_state) :
  nav hurricanes folders_path = Some folders ->
  getitem folders decade = Some doc ->
  placemarks_of doc !! i = Some pm ->
  storm_track pm = None ->
  (forall j pm', j < i -> placemarks_of doc !! j = Some pm' ->
                 is_Some (storm_track pm')) ->
  result (read_decade hurricanes decade st) = Ok tt /\
  exists new,
    tracks (final (read_decade hurricanes decade st)) = tracks st ++ new /\
    Some <$> new = storm_track <$> take i (placemarks_of doc) /\
    length new = i.
Proof.
  intros Hf Hd Hi Hnone Hbefore.
  rewrite (read_decade_run _ _ _ _ _ Hf Hd). cbn [result final].
  rewrite (decade_body_folder _ _ _ _ _ Hf Hd).
  destruct (read_folder_run doc st) as (_ & Ht & _).
  split; [done|]. exists (decade_tracks doc). split; [done|].
  assert (Heq : Some <$> decade_tracks doc = storm_track <$> take i (placemarks_of doc)).
  { unfold decade_tracks. rewrite fmap_take. apply good_prefix_first_failure.
    - rewrite list_lookup_fmap, Hi. cbn [fmap option_fmap option_map]. by rewrite Hnone.
    - intros j Hj.
      destruct (lookup_lt_is_Some_2 (placemarks_of doc) j) as [pm' Hpm'];
        [apply lookup_lt_Some in Hi; lia|].
      destruct (Hbefore j pm' Hj Hpm') as [a Ha]. exists a.
      rewrite list_lookup_fmap, Hpm'. cbn [fmap option_fmap option_map]. by rewrite Ha. }
  split; [done|].
  apply (f_equal length) in Heq. rewrite !length_fmap, length_take in Heq.
  apply lookup_lt_Some in Hi. lia.
Qed.

(** X9. A decade folder without [Document.Placemark] makes the [try]
    block raise [AttributeError] before any storm is read; the bare
    [except] swallows it, and the loop body of the decade ends normally
    having changed nothing. *)
Theorem decade_without_placemarks_is_skipped
    (hurricanes folders doc : objref) (decade : nat) (st : tracks_state) :
  nav hurricanes folders_path = Some folders ->
  getitem folders decade = Some doc ->
  nav doc placemarks_path = None ->
  decade_body hurricanes decade doc st = Run (Raise AttributeError) st 0 /\
  read_decade hurricanes decade st = Run (Ok tt) st 0.
Proof.
  intros Hf Hd Hp.
  assert (Hbody : decade_body hurricanes decade doc st = Run (Raise AttributeError) st 0)
    by (unfold decade_body; by rewrite Hp, bind_lift_None).
  split; [done|]. rewrite (read_decade_run _ _ _ _ _ Hf Hd). by rewrite Hbody.
Qed.

(** The text of a storm's coordinates, when the placemark has a
    [LineString.coordinates] element and that element has text. *)
Definition track_text_of (placemark : objref) : option string :=
  nav placemark coordinates_path ≫= (fun c => text (self c)).

Lemma read_placemark_result pm st :
  result (read_placemark pm st) =
  match track_text_of pm with
  | None => Raise AttributeError
  | Some txt => match np_array (fromstring <$> split txt) with
                | None => Raise IndexError
                | Some _ => Ok tt
                end
  end.
Proof.
  unfold read_placemark, track_text_of, set_track, append_tracks.
  destruct (nav pm coordinates_path) as [c|]; cbn [mbind option_bind]; [|done].
  rewrite (bind_lift_Some _ _ _ _ _ eq_refl). cbv zeta. rewrite bind_modify.
  destruct (text (self c)) as [txt|]; cbn [fmap option_fmap option_map]; [|done].
  rewrite (bind_lift_Some _ _ _ _ _ eq_refl).
  rewrite (bind_step _ _ _ _ _ _ (read_locations_run _ _)).
  cbn [tracks track plotted app]. rewrite bind_get. cbn [tracks track plotted].
  destruct (np_array (fromstring <$> split txt)) as [a|]; [|done].
  by rewrite (bind_lift_Some _ _ _ _ _ eq_refl).
Qed.

Lemma np_array_None rows :
  np_array rows = None <->
  rows = [] \/ exists r r', r ∈ rows /\ r' ∈ rows /\ length r <> length r'.
Proof.
  split.
  - unfold np_array. destruct rows as [|r rs]; [by left|].
    case_decide as Hall; [done|]. intros _. right.
    apply not_Forall_Exists in Hall; [|apply _].
    apply Exists_exists in Hall as (r' & Hin & Hne).
    exists r', r. split; [by right|]. split; [by left|done].
  - intros [->|(r & r' & Hr & Hr' & Hne)]; [done|].
    destruct (np_array rows) as [a|] eqn:Ha; [|done].
    apply np_array_Some in Ha as (_ & _ & k & Hk).
    rewrite Forall_forall in Hk. rewrite (Hk r Hr), (Hk r' Hr') in Hne. done.
Qed.

(** Text all of whose characters are ASCII.  On such text [split] is
    Python's [str.split()], which elsewhere also splits at the white space
    of Unicode. *)
Definition ascii_text (s : string) : Prop :=
  Forall (fun c => nat_of_ascii c < 128) (chars s).

Lemma storm_track_text pm :
  storm_track pm =
  track_text_of pm ≫= fun txt =>
    first_two_columns <$> np_array (fromstring <$> split txt).
Proof.
  unfold storm_track, track_text_of.
  destruct (nav pm coordinates_path) as [c|]; [|done]. cbn [mbind option_bind].
  destruct (text (self c)) as [txt|]; [|done]. cbn [mbind option_bind].
  by destruct (np_array (fromstring <$> split txt)).
Qed.

Lemma read_placemark_keeps_tracks pm st :
  storm_track pm = None -> tracks (final (read_placemark pm st)) = tracks st.
Proof.
  intros Hnone. destruct (read_placemark_run pm st) as (_ & _ & Ht).
  rewrite Hnone in Ht. by destruct Ht.
Qed.

(** X10. Three ways in which reading one storm raises, each leaving
    [tracks] as it was.  A placemark without [LineString.coordinates], or
    whose coordinates have no text, raises [AttributeError].  A text that
    is empty or all white space raises [IndexError] (from
    [np.array(track)[:, :2]] on the empty list).  An ASCII text two of
    whose coordinate strings parse to arrays of different lengths raises
    too; with which exception depends on the NumPy at hand and is not
    stated.  The list is not exhaustive: nothing is said of a parser that
    itself raises. *)
Theorem storm_failures (pm : objref) (st : tracks_state) :
  (track_text_of pm = None ->
   result (read_placemark pm st) = Raise AttributeError /\
   tracks (final (read_placemark pm st)) = tracks st) /\
  (forall txt,
     track_text_of pm = Some txt ->
     Forall (fun c => isspace c = true) (chars txt) ->
     result (read_placemark pm st) = Raise IndexError /\
     tracks (final (read_placemark pm st)) = tracks st) /\
  (forall txt l l',
     track_text_of pm = Some txt -> ascii_text txt ->
     l ∈ split txt -> l' ∈ split txt ->
     length (fromstring l) <> length (fromstring l') ->
     (exists e, result (read_placemark pm st) = Raise e) /\
     tracks (final (read_placemark pm st)) = tracks st).
Proof.
  split; [|split].
  - intros Htxt. split; [by rewrite read_placemark_result, Htxt|].
    apply read_placemark_keeps_tracks. by rewrite storm_track_text, Htxt.
  - intros txt Htxt Hblank. apply split_nil_iff in Hblank.
    split.
    + rewrite read_placemark_result, Htxt. cbv beta iota. by rewrite Hblank.
    + apply read_placemark_keeps_tracks. rewrite storm_track_text, Htxt.
      cbn [mbind option_bind]. by rewrite Hblank.
  - intros txt l l' Htxt _ Hl Hl' Hne.
    assert (Hnone : np_array (fromstring <$> split txt) = None).
    { apply np_array_None. right. exists (fromstring l), (fromstring l').
      split; [by apply list_elem_of_fmap_2|]. split; [by apply list_elem_of_fmap_2|done]. }
    split.
    + exists IndexError. rewrite read_placemark_result, Htxt. cbv beta iota.
      by rewrite Hnone.
    + apply read_placemark_keeps_tracks. rewrite storm_track_text, Htxt.
      cbn [mbind option_bind]. by rewrite Hnone.
Qed.

(** *** The plot loop, one track at a time *)

(** What [plt.plot] is called with for one track: [track[:, 0]] and
    [track[:, 1]], when the track has both columns. *)
Definition plot_args (a : array2) : option (list num * list num) :=
  xs ← column a 0; ys ← column a 1; Some (xs, ys).

Definition plot_track (a : array2) : M tracks_state unit :=
  set_track a ;;
  let* xs := lift IndexError (column a 0) in
  let* ys := lift IndexError (column a 1) in
  plot xs ys.

#[local] Instance plottable_dec (a : array2) : Decision (plottable a).
Proof. unfold plottable. apply _. Defined.

Lemma plot_loop_exact tracks0 : forall st,
  tracks (final (for_each tracks0 plot_track st)) = tracks st /\
  plotted (final (for_each tracks0 plot_track st)) =
    plotted st ++ good_prefix (plot_args <$> tracks0) /\
  result (for_each tracks0 plot_track st) =
    if decide (Forall plottable tracks0) then Ok tt else Raise IndexError.
Proof.
  induction tracks0 as [|a tracks0 IH]; intros st.
  - cbn. by rewrite app_nil_r.
  - rewrite fmap_cons. unfold plot_args at 1.
    destruct (column a 0) as [xs|] eqn:Hxs; [destruct (column a 1) as [ys|] eqn:Hys|].
    + erewrite for_each_cons; last first.
      { unfold plot_track, set_track, plot. rewrite bind_modify.
        rewrite (bind_lift_Some _ _ _ _ _ Hxs), (bind_lift_Some _ _ _ _ _ Hys).
        reflexivity. }
      cbn [result final iters mbind option_bind good_prefix].
      match goal with
      | |- context [for_each _ _ ?s] => destruct (IH s) as (Ht & Hp & Hr)
      end.
      rewrite Ht, Hp, Hr. cbn [tracks plotted]. rewrite <- app_assoc.
      split; [done|]. split; [done|].
      assert (Ha : plottable a) by (split; by eexists).
      destruct (decide (Forall plottable tracks0)) as [Hall|Hall].
      * by rewrite decide_True by (by constructor).
      * rewrite decide_False; [done|]. by intros [_ ?]%Forall_cons.
    + erewrite for_each_cons_raise; last first.
      { unfold plot_track, set_track, plot. rewrite bind_modify.
        rewrite (bind_lift_Some _ _ _ _ _ Hxs), Hys, bind_lift_None. reflexivity. }
      cbn [result final iters tracks plotted mbind option_bind good_prefix].
      rewrite app_nil_r. split; [done|]. split; [done|].
      rewrite decide_False; [done|].
      intros [[_ [? Hc]] _]%Forall_cons. by rewrite Hys in Hc.
    + erewrite for_each_cons_raise; last first.
      { unfold plot_track, set_track, plot. rewrite bind_modify, Hxs, bind_lift_None.
        reflexivity. }
      cbn [result final iters tracks plotted mbind option_bind good_prefix].
      rewrite app_nil_r. split; [done|]. split; [done|].
      rewrite decide_False; [done|].
      intros [[[? Hc] _] _]%Forall_cons. by rewrite Hxs in Hc.
Qed.

(** X12. The plot loop (cells 20 and 22) leaves [tracks] as it is and
    plots the tracks in order, column 0 against column 1, up to but not
    including the first track that lacks one of the two columns; it ends
    normally when there is no such track and raises [IndexError]
    otherwise. *)
Theorem plot_loop_stops_at_the_first_bad_track (st : tracks_state) :
  tracks (final (plot_tracks st)) = tracks st /\
  plotted (final (plot_tracks st)) =
    plotted st ++ good_prefix (plot_args <$> tracks st) /\
  result (plot_tracks st) =
    if decide (Forall plottable (tracks st)) then Ok tt else Raise IndexError.
Proof. unfold plot_tracks. rewrite bind_get. apply (plot_loop_exact (tracks st) st). Qed.

(** X8. The cell can end in three ways only.  Without
    [hurricanes.Document.Folder.Folder] it raises [AttributeError] from
    the loop header, outside every [try], having emptied [tracks] and
    plotted nothing.  Otherwise nothing that goes wrong inside a decade
    reaches the caller: the cell ends normally when every collected track
    has columns 0 and 1, and raises [IndexError] from the plot loop when
    one has not. *)
Theorem cell_outcome (hurricanes : objref) (st : tracks_state) :
  result (hurricane_cell hurricanes st) =
    match nav hurricanes folders_path with
    | None => Raise AttributeError
    | Some _ => if decide (Forall plottable (folders_of hurricanes ≫= decade_tracks))
                then Ok tt else Raise IndexError
    end /\
  (nav hurricanes folders_path = None ->
   final (hurricane_cell hurricanes st) =
     {| tracks := []; track := track st; plotted := plotted st |}).
Proof.
  unfold hurricane_cell.
  destruct (read_tracks_run hurricanes st) as (Hr & _ & Ht & _).
  destruct (nav hurricanes folders_path) as [folders|] eqn:Hf.
  - specialize (Hr (ltac:(by eexists))).
    destruct (read_tracks hurricanes st) as [res s n] eqn:Hrun.
    cbn [result final] in *. subst res.
    rewrite (bind_step _ _ _ _ _ _ Hrun). cbn [result].
    split; [|done]. unfold plot_tracks. rewrite bind_get.
    destruct (plot_loop_exact (tracks s) s) as (_ & _ & Hres).
    rewrite <- Ht. exact Hres.
  - assert (Hrun : read_tracks hurricanes st =
              Run (Raise AttributeError)
                  {| tracks := []; track := track st; plotted := plotted st |} 0).
    { unfold read_tracks, set_tracks. rewrite bind_modify, Hf, bind_lift_None.
      reflexivity. }
    rewrite (bind_raise _ _ _ _ _ _ Hrun). done.
Qed.

(** *** Well-formed documents *)

(** A storm is well formed when it has at least one coordinate string and
    all its strings parse to arrays of one length, which is at least 2
    (longitude, latitude, and usually altitude). *)
Definition well_formed_storm (placemark : objref) : Prop :=
  exists l ls,
    locations_of placemark = l :: ls /\
    2 <= length (fromstring l) /\
    Forall (fun l' => length (fromstring l') = length (fromstring l)) ls.

(** The same as a test that can be run on a document. *)
Definition well_formed_storm_b (placemark : objref) : bool :=
  match locations_of placemark with
  | [] => false
  | l :: ls =>
      (2 <=? length (fromstring l)) &&
      forallb (fun l' => length (fromstring l') =? length (fromstring l)) ls
  end.

Lemma well_formed_storm_check pm :
  well_formed_storm_b pm = true -> well_formed_storm pm.
Proof.
  unfold well_formed_storm_b, well_formed_storm.
  destruct (locations_of pm) as [|l ls]; [done|].
  intros [H2 Hall]%andb_true_iff. exists l, ls. split; [done|].
  split; [by apply Nat.leb_le|].
  apply Forall_forall. intros l' Hl'.
  rewrite List.forallb_forall in Hall.
  by apply Nat.eqb_eq, Hall, list_elem_of_In.
Qed.

Lemma well_formed_document_check docs :
  forallb (fun doc => forallb well_formed_storm_b (placemarks_of doc)) docs = true ->
  Forall (fun doc => Forall well_formed_storm (placemarks_of doc)) docs.
Proof.
  intros Hall. rewrite List.forallb_forall in Hall.
  apply Forall_forall. intros doc Hdoc%list_elem_of_In.
  specialize (Hall doc Hdoc). rewrite List.forallb_forall in Hall.
  apply Forall_forall. intros pm Hpm%list_elem_of_In.
  by apply well_formed_storm_check, Hall.
Qed.

(** The array of a well-formed storm and what is plotted for it. *)
Definition storm_rows (placemark : objref) : array2 :=
  (fun l => take 2 (fromstring l)) <$> locations_of placemark.

Definition storm_plot (placemark : objref) : list num * list num :=
  (omap (fun l => fromstring l !! 0) (locations_of placemark),
   omap (fun l => fromstring l !! 1) (locations_of placemark)).

Lemma column_first_two locs j :
  j < 2 -> Forall (fun l => j < length (fromstring l)) locs ->
  column ((fun l => take 2 (fromstring l)) <$> locs) j =
  Some (omap (fun l => fromstring l !! j) locs).
Proof.
  intros Hj Hall. unfold column. apply mapM_Some.
  induction Hall as [|l locs Hl _ IH]; [constructor|].
  destruct (lookup_lt_is_Some_2 (fromstring l) j Hl) as [v Hv].
  cbn [fmap list_fmap omap list_omap]. rewrite Hv. constructor; [|exact IH].
  by rewrite lookup_take_lt.
Qed.

Lemma well_formed_storm_track pm :
  well_formed_storm pm ->
  storm_track pm = Some (storm_rows pm) /\
  plot_args (storm_rows pm) = Some (storm_plot pm).
Proof.
  intros (l & ls & Hlocs & H2 & Hall).
  assert (Hk : Forall (fun l' => 2 <= length (fromstring l')) (l :: ls)).
  { constructor; [done|]. eapply Forall_impl; [exact Hall|]. intros l' Hl'. cbn in Hl'. lia. }
  split.
  - unfold storm_track, storm_rows. unfold locations_of in *.
    destruct (nav pm coordinates_path) as [c|]; [|done]. cbn [mbind option_bind] in *.
    destruct (text (self c)) as [txt|]; [|done]. cbn [mbind option_bind].
    rewrite Hlocs. unfold np_array. rewrite fmap_cons.
    rewrite decide_True by (by apply Forall_fmap).
    cbn [mbind option_bind]. unfold first_two_columns.
    by rewrite <- fmap_cons, <- list_fmap_compose.
  - unfold plot_args, storm_rows, storm_plot. rewrite Hlocs.
    rewrite !column_first_two; [done|lia|..|lia|].
    + eapply Forall_impl; [exact Hk|]. intros l' Hl'. cbn in Hl'. lia.
    + eapply Forall_impl; [exact Hk|]. intros l' Hl'. cbn in Hl'. lia.
Qed.

Lemma list_bind_ext_in {A B} (f g : A -> list B) l :
  Forall (fun x => f x = g x) l -> l ≫= f = l ≫= g.
Proof. induction 1 as [|x l Hx _ IH]; [done|]. by rewrite !bind_cons, Hx, IH. Qed.

Lemma well_formed_tracks (hurricanes : objref) :
  Forall (fun doc => Forall well_formed_storm (placemarks_of doc))
    (folders_of hurricanes) ->
  folders_of hurricanes ≫= decade_tracks =
    (folders_of hurricanes ≫= fun doc => storm_rows <$> placemarks_of doc) /\
  Forall plottable (folders_of hurricanes ≫= decade_tracks).
Proof.
  intros Hwf.
  assert (Htracks : folders_of hurricanes ≫= decade_tracks =
            folders_of hurricanes ≫= fun doc => storm_rows <$> placemarks_of doc).
  { apply list_bind_ext_in. eapply Forall_impl; [exact Hwf|].
    intros doc Hdoc. cbn beta. unfold decade_tracks. apply good_prefix_all.
    eapply Forall_impl; [exact Hdoc|]. intros pm Hpm.
    by destruct (well_formed_storm_track pm Hpm). }
  split; [done|].
  rewrite Htracks. apply Forall_forall. intros a (doc & Ha & Hdoc)%list_elem_of_bind.
  apply list_elem_of_fmap in Ha as (pm & -> & Hpm).
  rewrite Forall_forall in Hwf. specialize (Hwf doc Hdoc).
  rewrite Forall_forall in Hwf. specialize (Hwf pm Hpm).
  destruct (well_formed_storm_track pm Hwf) as [_ Hargs].
  unfold plot_args in Hargs. unfold plottable.
  destruct (column (storm_rows pm) 0); [|done].
  destruct (column (storm_rows pm) 1); [|done]. split; by eexists.
Qed.

(** X13. On a document that has [Document.Folder.Folder] and all of whose
    storms are well formed, the cell ends normally; [tracks] holds one
    array per storm, in document order, whose rows are the first two
    components of the storm's coordinate strings; and each storm is
    plotted once, in that order, all its first components (longitudes)
    against all its second components (latitudes). *)
Theorem well_formed_document_is_read_in_full
    (hurricanes : objref) (st : tracks_state) :
  is_Some (nav hurricanes folders_path) ->
  Forall (fun doc => Forall well_formed_storm (placemarks_of doc))
    (folders_of hurricanes) ->
  result (hurricane_cell hurricanes st) = Ok tt /\
  tracks (final (hurricane_cell hurricanes st)) =
    (folders_of hurricanes ≫= fun doc => storm_rows <$> placemarks_of doc) /\
  plotted (final (hurricane_cell hurricanes st)) =
    plotted st ++
    (folders_of hurricanes ≫= fun doc => storm_plot <$> placemarks_of doc).
Proof.
  intros Hnav Hwf.
  destruct (well_formed_tracks hurricanes Hwf) as [Htracks Hall].
  assert (Hplots : good_prefix (plot_args <$>
              (folders_of hurricanes ≫= fun doc => storm_rows <$> placemarks_of doc)) =
            folders_of hurricanes ≫= fun doc => storm_plot <$> placemarks_of doc).
  { clear Htracks Hall. induction Hwf as [|doc docs Hdoc _ IH]; [done|].
    rewrite !bind_cons, fmap_app, <- IH. clear IH.
    induction Hdoc as [|pm pms Hpm _ IH]; [done|].
    destruct (well_formed_storm_track pm Hpm) as [_ Hargs].
    rewrite !fmap_cons. cbn [app]. rewrite Hargs. cbn [good_prefix]. by rewrite IH. }
  unfold hurricane_cell.
  destruct (read_tracks_run hurricanes st) as (Hr & Hp & Ht & _).
  specialize (Hr Hnav).
  destruct (read_tracks hurricanes st) as [res s n] eqn:Hrun.
  cbn [result final] in *. subst res.
  rewrite (bind_step _ _ _ _ _ _ Hrun). cbn [result final].
  unfold plot_tracks. rewrite bind_get.
  pose proof (plot_loop_exact (tracks s) s) as Hplot. unfold plot_track in Hplot.
  destruct Hplot as (Ht' & Hp' & Hres).
  rewrite Ht', Hp', Hres, Hp, Ht, decide_True by done.
  by rewrite Htracks, Hplots.
Qed.

(** *** The loop entries on a well-formed document *)

Lemma read_placemark_steps pm st :
  is_Some (storm_track pm) ->
  result (read_placemark pm st) = Ok tt /\
  iters (read_placemark pm st) = length (locations_of pm).
Proof.
  unfold read_placemark, storm_track, locations_of, set_track, append_tracks.
  destruct (nav pm coordinates_path) as [c|]; cbn [mbind option_bind]; [|by intros [? ?]].
  rewrite (bind_lift_Some _ _ _ _ _ eq_refl). cbv zeta. rewrite bind_modify.
  destruct (text (self c)) as [txt|];
    cbn [mbind option_bind fmap option_fmap option_map]; [|by intros [? ?]].
  rewrite (bind_lift_Some _ _ _ _ _ eq_refl).
  rewrite (bind_step _ _ _ _ _ _ (read_locations_run _ _)).
  cbn [tracks track plotted app]. rewrite bind_get. cbn [tracks track plotted].
  destruct (np_array (fromstring <$> split txt)) as [a|];
    cbn [mbind option_bind]; [|by intros [? ?]].
  intros _. rewrite (bind_lift_Some _ _ _ _ _ eq_refl). cbn. split; [done|lia].
Qed.

Lemma read_placemarks_steps pms : forall st,
  Forall (fun pm => is_Some (storm_track pm)) pms ->
  result (for_each pms read_placemark st) = Ok tt /\
  iters (for_each pms read_placemark st) = sum_list (storm_steps <$> pms).
Proof.
  induction pms as [|pm pms IH]; intros st Hall; [done|].
  apply Forall_cons in Hall as [Hpm Hall].
  destruct (read_placemark_steps pm st Hpm) as [Hres Hit].
  destruct (read_placemark pm st) as [res s1 n1] eqn:Hr.
  cbn [result iters] in Hres, Hit. subst res.
  rewrite (for_each_cons _ _ _ _ _ _ Hr). cbn [result iters].
  destruct (IH s1 Hall) as [Hres1 Hit1].
  rewrite fmap_cons, sum_list_cons. unfold storm_steps at 1.
  split; [done|lia].
Qed.

Lemma read_folders_steps docs : forall st,
  Forall (fun doc => Forall (fun pm => is_Some (storm_track pm)) (placemarks_of doc)) docs ->
  iters (for_each docs read_folder_swallowed st) = sum_list (decade_steps <$> docs).
Proof.
  induction docs as [|doc docs IH]; intros st Hall; [done|].
  apply Forall_cons in Hall as [Hdoc Hall].
  assert (Hsteps : iters (read_folder doc st) =
                   sum_list (storm_steps <$> placemarks_of doc)).
  { unfold read_folder. unfold placemarks_of in *.
    destruct (nav doc placemarks_path) as [placemarks|].
    - rewrite (bind_lift_Some _ _ _ _ _ eq_refl).
      by destruct (read_placemarks_steps (items placemarks) st Hdoc).
    - by rewrite bind_lift_None. }
  rewrite (for_each_cons doc docs read_folder_swallowed st _ _ eq_refl).
  cbn [iters]. rewrite (IH _ Hall), fmap_cons, sum_list_cons, Hsteps.
  unfold decade_steps. lia.
Qed.

Lemma plot_loop_steps tracks0 : forall st,
  Forall plottable tracks0 ->
  iters (for_each tracks0 plot_track st) = length tracks0.
Proof.
  induction tracks0 as [|a tracks0 IH]; intros st Hall; [done|].
  apply Forall_cons in Hall as [[[xs Hxs] [ys Hys]] Hall].
  erewrite for_each_cons; last first.
  { unfold plot_track, set_track, plot. rewrite bind_modify.
    rewrite (bind_lift_Some _ _ _ _ _ Hxs), (bind_lift_Some _ _ _ _ _ Hys).
    reflexivity. }
  cbn [iters length]. by rewrite (IH _ Hall).
Qed.

Lemma length_bind_fmap {A B C} (f : A -> list B) (g : A -> B -> C) l :
  length (l ≫= fun x => g x <$> f x) = sum_list ((fun x => length (f x)) <$> l).
Proof.
  induction l as [|x l IH]; [done|].
  by rewrite bind_cons, length_app, length_fmap, fmap_cons, sum_list_cons, IH.
Qed.

(** X16. On such a document the bound on the loop entries is attained:
    the cell enters a loop body exactly once per decade, once per storm,
    once per coordinate string and once per track plotted. *)
Theorem well_formed_document_attains_the_bound
    (hurricanes : objref) (st : tracks_state) :
  is_Some (nav hurricanes folders_path) ->
  Forall (fun doc => Forall well_formed_storm (placemarks_of doc))
    (folders_of hurricanes) ->
  iters (hurricane_cell hurricanes st) = cell_steps hurricanes /\
  cell_steps hurricanes =
    sum_list ((fun doc =>
                 1 + sum_list ((fun placemark =>
                                  1 + length (locations_of placemark))
                               <$> placemarks_of doc))
              <$> folders_of hurricanes) +
    sum_list ((fun doc => length (placemarks_of doc)) <$> folders_of hurricanes).
Proof.
  intros Hnav Hwf. split; [|done].
  destruct (well_formed_tracks hurricanes Hwf) as [Htracks Hall].
  assert (Hsome : Forall (fun doc => Forall (fun pm => is_Some (storm_track pm))
                                       (placemarks_of doc)) (folders_of hurricanes)).
  { eapply Forall_impl; [exact Hwf|]. intros doc Hdoc. cbn beta.
    eapply Forall_impl; [exact Hdoc|]. intros pm Hpm. cbn beta.
    destruct (well_formed_storm_track pm Hpm) as [-> _]. by eexists. }
  assert (Hread : iters (read_tracks hurricanes st) =
                  sum_list (decade_steps <$> folders_of hurricanes)).
  { clear Htracks Hall. unfold read_tracks, set_tracks, folders_of in *.
    rewrite bind_modify.
    destruct (nav hurricanes folders_path) as [folders|] eqn:Hf; [|by destruct Hnav].
    rewrite (bind_lift_Some _ _ _ _ _ eq_refl).
    unfold range. rewrite len_items.
    rewrite (for_each_seq_lookup (items folders) _ read_folder_swallowed 0)
      by (intros i doc Hi s; by apply (read_decade_folder _ folders)).
    by apply read_folders_steps. }
  unfold hurricane_cell, cell_steps.
  destruct (read_tracks_run hurricanes st) as (Hr & _ & Ht & _).
  specialize (Hr Hnav).
  destruct (read_tracks hurricanes st) as [res s n] eqn:Hrun.
  cbn [result final iters] in *. subst res.
  rewrite (bind_step _ _ _ _ _ _ Hrun). cbn [iters].
  unfold plot_tracks. rewrite bind_get.
  pose proof (plot_loop_steps (tracks s) s) as Hplot. unfold plot_track in Hplot.
  rewrite Hplot by (by rewrite Ht).
  rewrite Hread, Ht, Htracks, length_bind_fmap. done.
Qed.

End Hurricanes.

Arguments VInt {_ _ _} n.
Arguments VModule {_ _ _} name.
Arguments VFloats {_ _ _} a.
Arguments VInts {_ _ _} a.
Arguments VBools {_ _ _} a.
Arguments VArray2 {_ _ _} a.
Arguments VMasked3 {_ _ _} a.
Arguments VTri {_ _ _} t.
Arguments VInterp {_ _ _} f.
Arguments Notebook {_ _ _ _ _} env random_state files.
Arguments env {_ _ _ _ _} n.
Arguments random_state {_ _ _ _ _} n.
Arguments files {_ _ _ _ _} n.
Arguments TracksState {_} tracks track plotted.
Arguments tracks {_} t.
Arguments track {_} t.
Arguments plotted {_} t.
Arguments two_columns {_} a.
Arguments plottable {_} a.
Arguments numpy_kernel {_ _ _ _ _} st.

(** ** All loops of the two cells *)

(** C7. The cells with loops are total functions of their inputs, built
    from straight-line steps and [for] loops over finite lists, with no
    recursion.  The interpolation loop enters its body exactly
    [Ntimes = 20] times; the hurricane cell enters a loop body at most once
    per decade, once per storm, once per coordinate string and once per
    collected track, a number fixed by the document; and the plot loop on
    its own (cell 22) at most once per track. *)
Theorem loops_are_bounded
    (rng : Type) (rand : nat -> rng -> list float * rng)
    (shuffle : list nat -> rng -> list nat * rng) (np_sin : float -> float)
    (triangulation interpolator marray : Type)
    (Triangulation : list float -> list float -> triangulation)
    (LinearTriInterpolator : triangulation -> list float -> interpolator)
    (interp_call : interpolator -> ndarray2 -> ndarray2 -> marray)
    (uninitialised : nat -> marray) (file : Type)
    (rand_length : forall n r, length (rand n r).1 = n)
    (shuffle_perm : forall a r, (shuffle a r).1 ≡ₚ a)
    (st : notebook rng triangulation interpolator marray file)
    (num : Type) (fromstring : string -> list num)
    (hurricanes : objref) (hst : tracks_state num) :
  Ntimes = 20 /\
  result (gridding_cell rng rand shuffle np_sin triangulation interpolator marray
            Triangulation LinearTriInterpolator interp_call uninitialised file st)
    = Ok tt /\
  iters (gridding_cell rng rand shuffle np_sin triangulation interpolator marray
           Triangulation LinearTriInterpolator interp_call uninitialised file st)
    = Ntimes /\
  iters (hurricane_cell num fromstring hurricanes hst) <= cell_steps hurricanes /\
  iters (plot_tracks num hst) <= length (tracks hst) /\
  cell_steps hurricanes =
    sum_list ((fun doc =>
                 1 + sum_list ((fun placemark =>
                                  1 + length (locations_of placemark))
                               <$> placemarks_of doc))
              <$> folders_of hurricanes) +
    sum_list ((fun doc => length (placemarks_of doc)) <$> folders_of hurricanes).
Proof.
  destruct (gridding_cell_iters rng rand shuffle np_sin triangulation interpolator
              marray Triangulation LinearTriInterpolator interp_call uninitialised
              file rand_length shuffle_perm st) as [Hres Hit].
  destruct (hurricane_cell_run num fromstring hurricanes hst) as (_ & Hsteps & _).
  pose proof (plot_tracks_iters num hst) as Hplot.
  done.
Qed.

(** ** The cells on concrete libraries *)

(** *** A library for the gridding cell

    A generator that cycles through the tenths 0, 0.1, ..., 0.9, a shuffle
    that reverses, a cubic in place of the sine, and triangulation and
    interpolation routines that simply record their arguments. *)
Definition demo_rand (n : nat) (r : nat) : list float * nat :=
  ((fun i => (float_of_nat ((r + i) mod 10) / 10)%float) <$> seq 0 n, S r).

Definition demo_shuffle (a : list nat) (r : nat) : list nat * nat := (reverse a, S r).

Definition demo_sin (v : float) : float := (v - v * v * v / 6)%float.

Definition demo_triangulation : Type := list float * list float.
Definition demo_interpolator : Type := demo_triangulation * list float.
Definition demo_marray : Type := option (demo_interpolator * ndarray2 * ndarray2).

Definition demo_Triangulation (xs ys : list float) : demo_triangulation := (xs, ys).

Definition demo_LinearTriInterpolator (t : demo_triangulation) (fs : list float)
    : demo_interpolator := (t, fs).

Definition demo_interp_call (f : demo_interpolator) (xgrid ygrid : ndarray2)
    : demo_marray := Some (f, xgrid, ygrid).

Definition demo_uninitialised (n : nat) : demo_marray := None.

Definition demo_gridding_cell
    : M (notebook nat demo_triangulation demo_interpolator demo_marray unit) unit :=
  gridding_cell nat demo_rand demo_shuffle demo_sin
    demo_triangulation demo_interpolator demo_marray
    demo_Triangulation demo_LinearTriInterpolator demo_interp_call
    demo_uninitialised unit.

(** A fresh kernel: nothing bound, no file on disk. *)
Definition fresh_notebook
    : notebook nat demo_triangulation demo_interpolator demo_marray unit :=
  Notebook ∅ 0 ∅.

Lemma demo_rand_length n r : length (demo_rand n r).1 = n.
Proof. unfold demo_rand. cbn [fst]. by rewrite length_fmap, length_seq. Qed.

Lemma demo_shuffle_perm a r : (demo_shuffle a r).1 ≡ₚ a.
Proof. apply reverse_Permutation. Qed.

Definition tenths : list float :=
  (fun k => (float_of_nat k / 10)%float) <$> seq 0 10.

Lemma demo_rand_tenths n r x : x ∈ (demo_rand n r).1 -> x ∈ tenths.
Proof.
  unfold demo_rand. cbn [fst]. intros (i & -> & _)%list_elem_of_fmap.
  unfold tenths. apply list_elem_of_fmap. exists ((r + i) mod 10).
  split; [done|]. apply elem_of_seq. pose proof (Nat.mod_upper_bound (r + i) 10). lia.
Qed.

(** No wave value on the tenths is NaN, checked value by value. *)
Definition tenths_wave_ok : bool :=
  forallb (fun x => forallb (fun y => forallb (fun t =>
      negb (PrimFloat.is_nan (wave_value demo_sin (x + y)%float t)))
    (seq 0 Ntimes)) tenths) tenths.

Lemma demo_wave_is_number r r' x y t :
  x ∈ (demo_rand Ndatapoints r).1 -> y ∈ (demo_rand Ndatapoints r').1 ->
  t < Ntimes ->
  PrimFloat.is_nan (wave_value demo_sin (x + y)%float t) = false.
Proof.
  intros Hx%demo_rand_tenths Hy%demo_rand_tenths Ht.
  assert (Hall : tenths_wave_ok = true) by (vm_compute; reflexivity).
  unfold tenths_wave_ok in Hall.
  rewrite List.forallb_forall in Hall.
  specialize (Hall x (proj1 (list_elem_of_In _ _) Hx)).
  rewrite List.forallb_forall in Hall.
  specialize (Hall y (proj1 (list_elem_of_In _ _) Hy)).
  rewrite List.forallb_forall in Hall.
  apply negb_true_iff, Hall, list_elem_of_In, elem_of_seq. lia.
Qed.

(** *** The gridding results on that library *)

Lemma interpolation_uses_the_valid_points_demo :
  (forall n r, length (demo_rand n r).1 = n) /\
  (forall a r, (demo_shuffle a r).1 ≡ₚ a) /\
  Ntimes = 20 /\
  result (demo_gridding_cell fresh_notebook) = Ok tt /\
  exists xdata ydata fdata xgrid ygrid fgrid,
    env (final (demo_gridding_cell fresh_notebook)) !! "xdata" = Some (VFloats xdata) /\
    env (final (demo_gridding_cell fresh_notebook)) !! "ydata" = Some (VFloats ydata) /\
    env (final (demo_gridding_cell fresh_notebook)) !! "fdata" = Some (VArray2 fdata) /\
    env (final (demo_gridding_cell fresh_notebook)) !! "xgrid" = Some (VArray2 xgrid) /\
    env (final (demo_gridding_cell fresh_notebook)) !! "ygrid" = Some (VArray2 ygrid) /\
    env (final (demo_gridding_cell fresh_notebook)) !! "fgrid" = Some (VMasked3 fgrid) /\
    ygrid = (mgrid 60 50).1 /\ xgrid = (mgrid 60 50).2 /\
    shape xgrid = (60, 50) /\ shape ygrid = (60, 50) /\
    well_shaped xgrid /\ well_shaped ygrid /\
    length fgrid = Ntimes /\
    forall n, n < Ntimes ->
      exists row,
        getrow fdata n = Some row /\
        fgrid !! n =
          Some (demo_interp_call
                  (demo_LinearTriInterpolator
                     (demo_Triangulation
                        ((selected_points xdata ydata row).*1.*1)
                        ((selected_points xdata ydata row).*1.*2))
                     ((selected_points xdata ydata row).*2))
                  xgrid ygrid) /\
        forall x y f,
          (x, y, f) ∈ selected_points xdata ydata row <->
          exists i, xdata !! i = Some x /\ ydata !! i = Some y /\
                    row !! i = Some f /\ PrimFloat.is_nan f = false.
Proof.
  split; [exact demo_rand_length|]. split; [exact demo_shuffle_perm|].
  exact (interpolation_uses_the_valid_points nat demo_rand demo_shuffle demo_sin
           demo_triangulation demo_interpolator demo_marray
           demo_Triangulation demo_LinearTriInterpolator demo_interp_call
           demo_uninitialised unit demo_rand_length demo_shuffle_perm fresh_notebook).
Defined.

Lemma bad_data_injection_demo :
  (forall n r, length (demo_rand n r).1 = n) /\
  (forall a r, (demo_shuffle a r).1 ≡ₚ a) /\
  Ndatapoints = 1000 /\ Ntimes = 20 /\ Nbad = 200 /\
  result (demo_gridding_cell fresh_notebook) = Ok tt /\
  exists xdata ydata idx fdata,
    env (final (demo_gridding_cell fresh_notebook)) !! "xdata" = Some (VFloats xdata) /\
    env (final (demo_gridding_cell fresh_notebook)) !! "ydata" = Some (VFloats ydata) /\
    env (final (demo_gridding_cell fresh_notebook)) !! "idx" = Some (VInts idx) /\
    env (final (demo_gridding_cell fresh_notebook)) !! "fdata" = Some (VArray2 fdata) /\
    shape fdata = (Ntimes, Ndatapoints) /\
    length (flat fdata) = Ntimes * Ndatapoints /\
    idx ≡ₚ seq 0 (Ntimes * Ndatapoints) /\
    NoDup (take Nbad idx) /\
    length (take Nbad idx) = Nbad /\
    (forall k, k ∈ take Nbad idx -> k < Ntimes * Ndatapoints) /\
    forall t i, t < Ntimes -> i < Ndatapoints ->
      exists x y,
        xdata !! i = Some x /\ ydata !! i = Some y /\
        flat fdata !! (t * Ndatapoints + i) =
          Some (if decide (t * Ndatapoints + i ∈ take Nbad idx) then nan
                else demo_sin ((x + y) * 5.0 + float_of_nat t / 3.0)%float).
Proof.
  split; [exact demo_rand_length|]. split; [exact demo_shuffle_perm|].
  exact (bad_data_injection nat demo_rand demo_shuffle demo_sin
           demo_triangulation demo_interpolator demo_marray
           demo_Triangulation demo_LinearTriInterpolator demo_interp_call
           demo_uninitialised unit demo_rand_length demo_shuffle_perm fresh_notebook).
Defined.


(** *** A generator that is stuck

    The count of C10 says nothing of where the points lie.  A generator
    that returns one value over and over still returns [n] values, the
    shuffle that leaves the order alone is still a permutation, and the
    wave on those values is still a number: with such a library every time
    step keeps its 800 points and more, and they all coincide. *)
Definition stuck_rand (n : nat) (r : unit) : list float * unit :=
  (replicate n 0.5%float, r).

Definition same_order (a : list nat) (r : unit) : list nat * unit := (a, r).

Definition stuck_gridding_cell
    : M (notebook unit demo_triangulation demo_interpolator demo_marray unit) unit :=
  gridding_cell unit stuck_rand same_order demo_sin
    demo_triangulation demo_interpolator demo_marray
    demo_Triangulation demo_LinearTriInterpolator demo_interp_call
    demo_uninitialised unit.

(** Twice the signed area of the triangle [p q r], as the floats compute
    it; three points are collinear when it is zero, and a point set is
    degenerate when no three of its points span a triangle. *)
Definition cross (p q r : float * float) : float :=
  ((q.1 - p.1) * (r.2 - p.2) - (q.2 - p.2) * (r.1 - p.1))%float.

Definition collinear (p q r : float * float) : bool :=
  PrimFloat.eqb (cross p q r) 0%float.

Definition degenerate (pts : list (float * float)) : Prop :=
  forall p q r, p ∈ pts -> q ∈ pts -> r ∈ pts -> collinear p q r = true.

Lemma stuck_rand_length n r : length (stuck_rand n r).1 = n.
Proof. apply length_replicate. Qed.

Lemma same_order_perm a r : (same_order a r).1 ≡ₚ a.
Proof. done. Qed.

Lemma stuck_wave_is_number (r r' : unit) x y t :
  x ∈ (stuck_rand Ndatapoints r).1 -> y ∈ (stuck_rand Ndatapoints r').1 ->
  t < Ntimes ->
  PrimFloat.is_nan (wave_value demo_sin (x + y)%float t) = false.
Proof.
  intros [-> _]%elem_of_replicate [-> _]%elem_of_replicate Ht.
  assert (Hall : forallb (fun t => negb (PrimFloat.is_nan
                   (wave_value demo_sin (0.5 + 0.5)%float t))) (seq 0 Ntimes) = true)
    by (vm_compute; reflexivity).
  rewrite List.forallb_forall in Hall.
  apply negb_true_iff, Hall, list_elem_of_In, elem_of_seq. lia.
Qed.


(** The names that the specification lists as the cell's only effects. *)
Definition claimed_names : list string :=
  ["xdata"; "ydata"; "time"; "fdata"; "xgrid"; "ygrid"; "fgrid"].

(** With any library whose generator keeps its promises, the cell run in a
    fresh kernel binds [idx], which is not one of the seven listed arrays:
    the seven are not the cell's only effects. *)
Lemma idx_is_bound_too :
  ~ exists (rng : Type) (rand : nat -> rng -> list float * rng)
      (shuffle : list nat -> rng -> list nat * rng) (np_sin : float -> float)
      (triangulation interpolator marray : Type)
      (Triangulation : list float -> list float -> triangulation)
      (LinearTriInterpolator : triangulation -> list float -> interpolator)
      (interp_call : interpolator -> ndarray2 -> ndarray2 -> marray)
      (uninitialised : nat -> marray) (file : Type) (seed : rng),
    (forall n r, length (rand n r).1 = n) /\
    (forall a r, (shuffle a r).1 ≡ₚ a) /\
    forall (x : string),
      x ∉ claimed_names ->
      env (final (gridding_cell rng rand shuffle np_sin triangulation interpolator
                    marray Triangulation LinearTriInterpolator interp_call
                    uninitialised file (Notebook ∅ seed ∅))) !! x
      = (∅ : gmap string (value triangulation interpolator marray)) !! x.
Proof.
  intros (rng & rand & shuffle & np_sin & triangulation & interpolator & marray &
          Triangulation & LinearTriInterpolator & interp_call & uninitialised & file &
          seed & Hlen & Hperm & Hclaim).
  destruct (gridding_cell_run rng rand shuffle np_sin triangulation interpolator
              marray Triangulation LinearTriInterpolator interp_call uninitialised
              file Hlen Hperm (Notebook ∅ seed ∅))
    as (xdata & ydata & idx & fdata0 & fdata & fgrid & _ & _ & _ & _ & _ & _ & _ &
        _ & _ & _ & _ & _ & Hidx & _).
  assert (Hnot : "idx" ∉ claimed_names).
  { unfold claimed_names. intros Hin.
    repeat (apply elem_of_cons in Hin as [Hin|Hin]; [discriminate Hin|]).
    by apply elem_of_nil in Hin. }
  specialize (Hclaim "idx" Hnot). rewrite Hidx, lookup_empty in Hclaim. discriminate.
Qed.

(** *** A parser and documents for the hurricane cell *)

(** On a well-formed coordinate string [np.fromstring(_, sep=',')] returns
    one number per comma-separated field; here each number is kept as the
    text of its field. *)
Fixpoint fields_go (cur s : string) : list string :=
  match s with
  | EmptyString => [cur]
  | String c s' =>
      if Ascii.eqb c ","%char then cur :: fields_go "" s'
      else fields_go (cur +:+ String c "") s'
  end.

Definition comma_fields (s : string) : list string :=
  if decide (s = "") then [] else fields_go "" s.

(** A placemark with a track, and one without. *)
Definition storm (coordinates : string) : element :=
  Element "Placemark" None
    [Element "name" (Some "storm") [];
     Element "LineString" None [Element "coordinates" (Some coordinates) []]].

Definition storm_without_track : element :=
  Element "Placemark" None [Element "name" (Some "storm") []].

Definition decade_folder (storms : list element) : element :=
  Element "Folder" None [Element "name" (Some "decade") []; Element "Document" None storms].

Definition kml (decades : list element) : element :=
  Element "kml" None [Element "Document" None [Element "Folder" None decades]].

(** Three decades; the second storm of the second decade has no track. *)
Definition decade0 : element :=
  decade_folder [storm "-75.5,23.1,0 -76.0,24.2,0"; storm "-60,15,0 -61,16,0 -62,17,0"].
Definition decade1 : element :=
  decade_folder [storm "-80,25,0"; storm_without_track; storm "-81,26,0"].
Definition decade2 : element :=
  decade_folder [storm "-90,20,0 -91,21,0"].

Definition demo_decades : list element := [decade0; decade1; decade2].

Definition demo_hurricanes : objref := root (kml demo_decades).

(** [hurricanes.Document.Folder.Folder] and its item 1. *)
Definition demo_folders : objref := {| self := decade0; siblings := demo_decades |}.
Definition failing_decade : objref := {| self := decade1; siblings := demo_decades |}.

Definition no_tracks : tracks_state string := TracksState [] [] [].

(** The cell on that document: the second decade contributes its first
    storm only, and the third decade is still read. *)
Example demo_hurricane_cell :
  hurricane_cell string comma_fields demo_hurricanes no_tracks =
  Run (Ok tt)
      {| tracks := [[["-75.5"; "23.1"]; ["-76.0"; "24.2"]];
                    [["-60"; "15"]; ["-61"; "16"]; ["-62"; "17"]];
                    [["-80"; "25"]];
                    [["-90"; "20"]; ["-91"; "21"]]];
         track := [["-90"; "20"]; ["-91"; "21"]];
         plotted := [(["-75.5"; "-76.0"], ["23.1"; "24.2"]);
                     (["-60"; "-61"; "-62"], ["15"; "16"; "17"]);
                     (["-80"], ["25"]);
                     (["-90"; "-91"], ["20"; "21"])] |}
      20.
Proof. vm_compute. reflexivity. Qed.

(** A storm whose coordinate strings have one component is collected as a
    one-column array, and the plot loop then fails on [track[:, 1]]. *)
Example single_component_cell :
  hurricane_cell string comma_fields (root (kml [decade_folder [storm "5"]])) no_tracks =
  Run (Raise IndexError)
      {| tracks := [[["5"]]]; track := [["5"]]; plotted := [] |}
      4.
Proof. vm_compute. reflexivity. Qed.

(** Ragged coordinate strings make [np.array(track)[:, :2]] fail: the
    storm is dropped with the rest of its decade. *)
Example ragged_storm_cell :
  hurricane_cell string comma_fields (root (kml [decade_folder [storm "1,2 3"]])) no_tracks =
  Run (Ok tt) {| tracks := []; track := [["1"; "2"]; ["3"]]; plotted := [] |} 4.
Proof. vm_compute. reflexivity. Qed.

(** *** The hurricane results on those documents *)

(** The state before decade 1 is read, the failing [try] block of decade
    1, the decades after it, and the whole loop. *)
Abbreviation demo_before :=
  (final (for_each (range 1) (read_decade string comma_fields demo_hurricanes) no_tracks)).

Abbreviation demo_failed :=
  (decade_body string comma_fields demo_hurricanes 1 failing_decade demo_before).

Abbreviation demo_rest :=
  (for_each (seq 2 (len demo_folders - 2))
     (read_decade string comma_fields demo_hurricanes) (final demo_failed)).

Abbreviation demo_whole :=
  (for_each (range (len demo_folders))
     (read_decade string comma_fields demo_hurricanes) no_tracks).

Lemma decade_failure_is_swallowed_demo :
  nav demo_hurricanes folders_path = Some demo_folders /\
  getitem demo_folders 1 = Some failing_decade /\
  result demo_failed = Raise AttributeError /\
  result (read_decade string comma_fields demo_hurricanes 1 demo_before) = Ok tt /\
  final (read_decade string comma_fields demo_hurricanes 1 demo_before) = final demo_failed /\
  tracks (final demo_failed) =
    tracks demo_before ++ decade_tracks string comma_fields failing_decade /\
  tracks demo_before `prefix_of` tracks (final demo_failed) /\
  result demo_whole = Ok tt /\
  final demo_whole = final demo_rest /\
  tracks (final demo_failed) `prefix_of` tracks (final demo_whole).
Proof.
  assert (H1 : nav demo_hurricanes folders_path = Some demo_folders)
    by (vm_compute; reflexivity).
  assert (H2 : getitem demo_folders 1 = Some failing_decade)
    by (vm_compute; reflexivity).
  assert (H3 : result demo_failed = Raise AttributeError)
    by (vm_compute; reflexivity).
  split; [exact H1|]. split; [exact H2|]. split; [exact H3|].
  exact (decade_failure_is_swallowed string comma_fields demo_hurricanes demo_folders
           failing_decade 1 no_tracks AttributeError H1 H2 H3).
Defined.

Lemma track_columns_demo :
  [["-80"; "25"]] ∈ tracks (final (hurricane_cell string comma_fields demo_hurricanes no_tracks)) /\
  exists doc placemark k,
    doc ∈ folders_of demo_hurricanes /\
    placemark ∈ placemarks_of doc /\
    locations_of placemark <> [] /\
    Forall (fun location => length (comma_fields location) = k) (locations_of placemark) /\
    [["-80"; "25"]] = (fun location => take 2 (comma_fields location)) <$> locations_of placemark /\
    Forall (fun row => length row = k `min` 2) [["-80"; "25"]] /\
    (2 <= k -> two_columns [["-80"; "25"]] /\ plottable [["-80"; "25"]]).
Proof.
  assert (H1 : [["-80"; "25"]] ∈
               tracks (final (hurricane_cell string comma_fields demo_hurricanes no_tracks))).
  { rewrite demo_hurricane_cell. cbn [final tracks].
    do 2 apply list_elem_of_further. apply list_elem_of_here. }
  split; [exact H1|].
  exact (track_columns string comma_fields demo_hurricanes no_tracks [["-80"; "25"]] H1).
Defined.

(** Whatever parser reads ["5"] as one number, the document whose only
    storm has the coordinate string ["5"] yields a track with a single
    column: not every collected track is a two-column array. *)
Lemma single_component_track :
  ~ exists (num : Type) (fromstring : string -> list num),
      length (fromstring "5") = 1 /\
      forall (hurricanes : objref) (st : tracks_state num),
        Forall two_columns (tracks (final (hurricane_cell num fromstring hurricanes st))).
Proof.
  intros (num & fromstring & H5 & Hclaim).
  specialize (Hclaim (root (kml [decade_folder [storm "5"]])) (TracksState [] [] [])).
  destruct (hurricane_cell_run num fromstring (root (kml [decade_folder [storm "5"]]))
              (TracksState [] [] [])) as (Ht & _).
  rewrite Ht in Hclaim.
  change (Forall two_columns [[take 2 (fromstring "5")]]) in Hclaim.
  apply Forall_cons in Hclaim as [Hrow _].
  apply Forall_cons in Hrow as [Hlen _].
  rewrite length_take, H5 in Hlen. discriminate.
Qed.

Lemma loops_are_bounded_demo :
  (forall n r, length (demo_rand n r).1 = n) /\
  (forall a r, (demo_shuffle a r).1 ≡ₚ a) /\
  Ntimes = 20 /\
  result (demo_gridding_cell fresh_notebook) = Ok tt /\
  iters (demo_gridding_cell fresh_notebook) = Ntimes /\
  iters (hurricane_cell string comma_fields demo_hurricanes no_tracks)
    <= cell_steps demo_hurricanes /\
  iters (plot_tracks string no_tracks) <= length (tracks no_tracks) /\
  cell_steps demo_hurricanes =
    sum_list ((fun doc =>
                 1 + sum_list ((fun placemark =>
                                  1 + length (locations_of placemark))
                               <$> placemarks_of doc))
              <$> folders_of demo_hurricanes) +
    sum_list ((fun doc => length (placemarks_of doc)) <$> folders_of demo_hurricanes).
Proof.
  split; [exact demo_rand_length|]. split; [exact demo_shuffle_perm|].
  exact (loops_are_bounded nat demo_rand demo_shuffle demo_sin
           demo_triangulation demo_interpolator demo_marray
           demo_Triangulation demo_LinearTriInterpolator demo_interp_call
           demo_uninitialised unit demo_rand_length demo_shuffle_perm fresh_notebook
           string comma_fields demo_hurricanes no_tracks).
Defined.

(** *** The further gridding results on that library *)

Lemma exactly_Nbad_values_are_lost_demo :
  (forall n r, length (demo_rand n r).1 = n) /\
  (forall a r, (demo_shuffle a r).1 ≡ₚ a) /\
  (forall r r' x y t,
     x ∈ (demo_rand Ndatapoints r).1 -> y ∈ (demo_rand Ndatapoints r').1 ->
     t < Ntimes ->
     PrimFloat.is_nan (wave_value demo_sin (x + y)%float t) = false) /\
  result (demo_gridding_cell fresh_notebook) = Ok tt /\
  exists idx fdata,
    env (final (demo_gridding_cell fresh_notebook)) !! "idx" = Some (VInts idx) /\
    env (final (demo_gridding_cell fresh_notebook)) !! "fdata" = Some (VArray2 fdata) /\
    Ntimes * Ndatapoints = 20 * 1000 /\ Nbad = 200 /\
    length (flat fdata) = Ntimes * Ndatapoints /\
    length (filter (fun v => PrimFloat.is_nan v = true) (flat fdata)) = Nbad /\
    length (filter (fun v => PrimFloat.is_nan v = false) (flat fdata))
      = Ntimes * Ndatapoints - Nbad /\
    forall k v, flat fdata !! k = Some v ->
      (PrimFloat.is_nan v = true <-> k ∈ take Nbad idx).
Proof.
  split; [exact demo_rand_length|]. split; [exact demo_shuffle_perm|].
  split; [exact demo_wave_is_number|].
  exact (exactly_Nbad_values_are_lost nat demo_rand demo_shuffle demo_sin
           demo_triangulation demo_interpolator demo_marray
           demo_Triangulation demo_LinearTriInterpolator demo_interp_call
           demo_uninitialised unit demo_rand_length demo_shuffle_perm
           demo_wave_is_number fresh_notebook).
Defined.

Lemma mask_marks_the_injected_positions_demo :
  (forall n r, length (demo_rand n r).1 = n) /\
  (forall a r, (demo_shuffle a r).1 ≡ₚ a) /\
  (forall r r' x y t,
     x ∈ (demo_rand Ndatapoints r).1 -> y ∈ (demo_rand Ndatapoints r').1 ->
     t < Ntimes ->
     PrimFloat.is_nan (wave_value demo_sin (x + y)%float t) = false) /\
  result (demo_gridding_cell fresh_notebook) = Ok tt /\
  exists xdata idx fdata,
    env (final (demo_gridding_cell fresh_notebook)) !! "xdata" = Some (VFloats xdata) /\
    env (final (demo_gridding_cell fresh_notebook)) !! "idx" = Some (VInts idx) /\
    env (final (demo_gridding_cell fresh_notebook)) !! "fdata" = Some (VArray2 fdata) /\
    forall n, n < Ntimes ->
      exists row xs,
        getrow fdata n = Some row /\
        mask_select (not_isnan row) xdata = Some xs /\
        (forall i, i < Ndatapoints ->
           not_isnan row !! i =
             Some (bool_decide (n * Ndatapoints + i ∉ take Nbad idx))) /\
        length xs +
          length (filter (fun k => k `div` Ndatapoints = n) (take Nbad idx))
          = Ndatapoints.
Proof.
  split; [exact demo_rand_length|]. split; [exact demo_shuffle_perm|].
  split; [exact demo_wave_is_number|].
  exact (mask_marks_the_injected_positions nat demo_rand demo_shuffle demo_sin
           demo_triangulation demo_interpolator demo_marray
           demo_Triangulation demo_LinearTriInterpolator demo_interp_call
           demo_uninitialised unit demo_rand_length demo_shuffle_perm
           demo_wave_is_number fresh_notebook).
Defined.

(** A kernel that has only imported NumPy, and one in which [fgrid] is
    also bound already, to something that is not an array. *)
Definition numpy_notebook
    : notebook nat demo_triangulation demo_interpolator demo_marray unit :=
  Notebook (<["np" := VModule "numpy"]> ∅) 0 ∅.

Definition used_notebook
    : notebook nat demo_triangulation demo_interpolator demo_marray unit :=
  Notebook (<["fgrid" := VInt 7]> (<["np" := VModule "numpy"]> ∅)) 0 ∅.

Lemma gridding_cell_is_self_contained_demo :
  numpy_kernel numpy_notebook /\
  numpy_kernel used_notebook /\
  random_state numpy_notebook = random_state used_notebook /\
  numpy_kernel (final (demo_gridding_cell numpy_notebook)) /\
  numpy_kernel (final (demo_gridding_cell used_notebook)) /\
  result (demo_gridding_cell numpy_notebook) = result (demo_gridding_cell used_notebook) /\
  iters (demo_gridding_cell numpy_notebook) = iters (demo_gridding_cell used_notebook) /\
  random_state (final (demo_gridding_cell numpy_notebook)) =
    random_state (final (demo_gridding_cell used_notebook)) /\
  (result (demo_gridding_cell numpy_notebook) = Ok tt ->
   forall x, x ∈ bound_names ->
     env (final (demo_gridding_cell numpy_notebook)) !! x =
     env (final (demo_gridding_cell used_notebook)) !! x).
Proof.
  assert (H1 : numpy_kernel numpy_notebook) by (split; reflexivity).
  assert (H2 : numpy_kernel used_notebook) by (split; reflexivity).
  split; [exact H1|]. split; [exact H2|]. split; [reflexivity|].
  exact (gridding_cell_is_self_contained nat demo_rand demo_shuffle demo_sin
           demo_triangulation demo_interpolator demo_marray
           demo_Triangulation demo_LinearTriInterpolator demo_interp_call
           demo_uninitialised unit numpy_notebook used_notebook H1 H2 eq_refl).
Defined.

Lemma generator_is_drawn_three_times_demo :
  (forall n r, length (demo_rand n r).1 = n) /\
  (forall a r, (demo_shuffle a r).1 ≡ₚ a) /\
  result (demo_gridding_cell fresh_notebook) = Ok tt /\
  env (final (demo_gridding_cell fresh_notebook)) !! "xdata"
    = Some (VFloats (drawn_xdata nat demo_rand (random_state fresh_notebook))) /\
  env (final (demo_gridding_cell fresh_notebook)) !! "ydata"
    = Some (VFloats (drawn_ydata nat demo_rand (random_state fresh_notebook))) /\
  env (final (demo_gridding_cell fresh_notebook)) !! "idx"
    = Some (VInts (drawn_idx nat demo_rand demo_shuffle (random_state fresh_notebook))) /\
  random_state (final (demo_gridding_cell fresh_notebook))
    = generator_after nat demo_rand demo_shuffle (random_state fresh_notebook).
Proof.
  split; [exact demo_rand_length|]. split; [exact demo_shuffle_perm|].
  exact (generator_is_drawn_three_times nat demo_rand demo_shuffle demo_sin
           demo_triangulation demo_interpolator demo_marray
           demo_Triangulation demo_LinearTriInterpolator demo_interp_call
           demo_uninitialised unit demo_rand_length demo_shuffle_perm fresh_notebook).
Defined.

Lemma loop_names_after_the_cell_demo :
  (forall n r, length (demo_rand n r).1 = n) /\
  (forall a r, (demo_shuffle a r).1 ≡ₚ a) /\
  result (demo_gridding_cell fresh_notebook) = Ok tt /\
  exists xdata ydata fdata row xs ys fs,
    env (final (demo_gridding_cell fresh_notebook)) !! "xdata" = Some (VFloats xdata) /\
    env (final (demo_gridding_cell fresh_notebook)) !! "ydata" = Some (VFloats ydata) /\
    env (final (demo_gridding_cell fresh_notebook)) !! "fdata" = Some (VArray2 fdata) /\
    getrow fdata 19 = Some row /\
    mask_select (not_isnan row) xdata = Some xs /\
    mask_select (not_isnan row) ydata = Some ys /\
    mask_select (not_isnan row) row = Some fs /\
    env (final (demo_gridding_cell fresh_notebook)) !! "n" = Some (VInt 19) /\
    env (final (demo_gridding_cell fresh_notebook)) !! "igood"
      = Some (VBools (not_isnan row)) /\
    env (final (demo_gridding_cell fresh_notebook)) !! "t"
      = Some (VTri (demo_Triangulation xs ys)) /\
    env (final (demo_gridding_cell fresh_notebook)) !! "interp"
      = Some (VInterp (demo_LinearTriInterpolator (demo_Triangulation xs ys) fs)).
Proof.
  split; [exact demo_rand_length|]. split; [exact demo_shuffle_perm|].
  exact (loop_names_after_the_cell nat demo_rand demo_shuffle demo_sin
           demo_triangulation demo_interpolator demo_marray
           demo_Triangulation demo_LinearTriInterpolator demo_interp_call
           demo_uninitialised unit demo_rand_length demo_shuffle_perm fresh_notebook).
Defined.

(** *** The further hurricane results on documents *)

(** The second storm of the second decade, which has no track. *)
Definition trackless_placemark : objref :=
  {| self := storm_without_track;
     siblings := [storm "-80,25,0"; storm_without_track; storm "-81,26,0"] |}.

Lemma storms_after_a_failure_are_skipped_demo :
  nav demo_hurricanes folders_path = Some demo_folders /\
  getitem demo_folders 1 = Some failing_decade /\
  placemarks_of failing_decade !! 1 = Some trackless_placemark /\
  storm_track string comma_fields trackless_placemark = None /\
  (forall j pm', j < 1 -> placemarks_of failing_decade !! j = Some pm' ->
                 is_Some (storm_track string comma_fields pm')) /\
  result (read_decade string comma_fields demo_hurricanes 1 no_tracks) = Ok tt /\
  exists new,
    tracks (final (read_decade string comma_fields demo_hurricanes 1 no_tracks))
      = tracks no_tracks ++ new /\
    Some <$> new = storm_track string comma_fields <$> take 1 (placemarks_of failing_decade) /\
    length new = 1.
Proof.
  assert (H1 : nav demo_hurricanes folders_path = Some demo_folders)
    by (vm_compute; reflexivity).
  assert (H2 : getitem demo_folders 1 = Some failing_decade)
    by (vm_compute; reflexivity).
  assert (H3 : placemarks_of failing_decade !! 1 = Some trackless_placemark)
    by (vm_compute; reflexivity).
  assert (H4 : storm_track string comma_fields trackless_placemark = None)
    by (vm_compute; reflexivity).
  assert (H5 : forall j pm', j < 1 -> placemarks_of failing_decade !! j = Some pm' ->
                 is_Some (storm_track string comma_fields pm')).
  { intros j pm' Hj Hpm'. destruct j as [|j]; [|lia].
    vm_compute in Hpm'. injection Hpm' as <-. vm_compute. eexists. reflexivity. }
  split; [exact H1|]. split; [exact H2|]. split; [exact H3|]. split; [exact H4|].
  split; [exact H5|].
  exact (storms_after_a_failure_are_skipped string comma_fields demo_hurricanes
           demo_folders failing_decade trackless_placemark 1 1 no_tracks
           H1 H2 H3 H4 H5).
Defined.

(** A document whose second decade folder has no [Document] at all. *)
Definition bare_decade : element :=
  Element "Folder" None [Element "name" (Some "decade") []].

Definition bare_hurricanes : objref := root (kml [decade0; bare_decade]).

Definition bare_folders : objref :=
  {| self := decade0; siblings := [decade0; bare_decade] |}.

Definition bare_doc : objref :=
  {| self := bare_decade; siblings := [decade0; bare_decade] |}.

Lemma decade_without_placemarks_is_skipped_demo :
  nav bare_hurricanes folders_path = Some bare_folders /\
  getitem bare_folders 1 = Some bare_doc /\
  nav bare_doc placemarks_path = None /\
  decade_body string comma_fields bare_hurricanes 1 bare_doc no_tracks
    = Run (Raise AttributeError) no_tracks 0 /\
  read_decade string comma_fields bare_hurricanes 1 no_tracks = Run (Ok tt) no_tracks 0.
Proof.
  assert (H1 : nav bare_hurricanes folders_path = Some bare_folders)
    by (vm_compute; reflexivity).
  assert (H2 : getitem bare_folders 1 = Some bare_doc)
    by (vm_compute; reflexivity).
  assert (H3 : nav bare_doc placemarks_path = None)
    by (vm_compute; reflexivity).
  split; [exact H1|]. split; [exact H2|]. split; [exact H3|].
  exact (decade_without_placemarks_is_skipped string comma_fields bare_hurricanes
           bare_folders bare_doc 1 no_tracks H1 H2 H3).
Defined.

(** A document all of whose storms are well formed. *)
Definition sound_hurricanes : objref := root (kml [decade0; decade2]).

Lemma well_formed_document_is_read_in_full_demo :
  is_Some (nav sound_hurricanes folders_path) /\
  Forall (fun doc => Forall (well_formed_storm string comma_fields) (placemarks_of doc))
    (folders_of sound_hurricanes) /\
  result (hurricane_cell string comma_fields sound_hurricanes no_tracks) = Ok tt /\
  tracks (final (hurricane_cell string comma_fields sound_hurricanes no_tracks)) =
    (folders_of sound_hurricanes ≫=
       fun doc => storm_rows string comma_fields <$> placemarks_of doc) /\
  plotted (final (hurricane_cell string comma_fields sound_hurricanes no_tracks)) =
    plotted no_tracks ++
    (folders_of sound_hurricanes ≫=
       fun doc => storm_plot string comma_fields <$> placemarks_of doc).
Proof.
  assert (H1 : is_Some (nav sound_hurricanes folders_path))
    by (vm_compute; eexists; reflexivity).
  assert (H2 : Forall (fun doc => Forall (well_formed_storm string comma_fields)
                                    (placemarks_of doc))
                 (folders_of sound_hurricanes))
    by (apply well_formed_document_check; vm_compute; reflexivity).
  split; [exact H1|]. split; [exact H2|].
  exact (well_formed_document_is_read_in_full string comma_fields sound_hurricanes
           no_tracks H1 H2).
Defined.

Lemma well_formed_document_attains_the_bound_demo :
  is_Some (nav sound_hurricanes folders_path) /\
  Forall (fun doc => Forall (well_formed_storm string comma_fields) (placemarks_of doc))
    (folders_of sound_hurricanes) /\
  iters (hurricane_cell string comma_fields sound_hurricanes no_tracks)
    = cell_steps sound_hurricanes /\
  cell_steps sound_hurricanes =
    sum_list ((fun doc =>
                 1 + sum_list ((fun placemark =>
                                  1 + length (locations_of placemark))
                               <$> placemarks_of doc))
              <$> folders_of sound_hurricanes) +
    sum_list ((fun doc => length (placemarks_of doc)) <$> folders_of sound_hurricanes).
Proof.
  assert (H1 : is_Some (nav sound_hurricanes folders_path))
    by (vm_compute; eexists; reflexivity).
  assert (H2 : Forall (fun doc => Forall (well_formed_storm string comma_fields)
                                    (placemarks_of doc))
                 (folders_of sound_hurricanes))
    by (apply well_formed_document_check; vm_compute; reflexivity).
  split; [exact H1|]. split; [exact H2|].
  exact (well_formed_document_attains_the_bound string comma_fields sound_hurricanes
           no_tracks H1 H2).
Defined.
